(** * Temper Sublime Text plugin: snippet catalog and tool invocation

    A shallow embedding of [editors/sublime/temper.py].  Python values that
    the plugin handles are the ones [json.loads] produces; strings are
    sequences of Unicode code points; the external tool and the editor are
    an explicit environment threaded through a state-and-exception monad. *)

From Stdlib Require Import List ZArith NArith Bool Ascii String Lia.
From Stdlib Require Import DecimalString.
Import ListNotations.

Set Implicit Arguments.

(** ** Python strings and bytes *)

(** A Python [str] is a sequence of code points, a [bytes] a sequence of
    octets. *)
Definition pystr := list N.
Definition pybytes := list N.

Definition code (a : ascii) : N := N_of_ascii a.

(** [U "abc"] is the Python literal ["abc"] (ASCII text only). *)
Definition U (s : string) : pystr := map code (list_ascii_of_string s).
Arguments U s%_string.

(** [J "{'a': 1}"] is [U] with every apostrophe standing for a double quote,
    to write JSON texts. *)
Definition J (s : string) : pystr :=
  map (fun a => if Ascii.eqb a "'" then 34%N else code a)
      (list_ascii_of_string s).
Arguments J s%_string.

Local Open Scope N_scope.

Fixpoint str_eqb (a b : pystr) : bool :=
  match a, b with
  | [], [] => true
  | x :: a', y :: b' => (x =? y) && str_eqb a' b'
  | _, _ => false
  end.

(** [s.startswith(p)] *)
Fixpoint startswith (s p : pystr) {struct p} : bool :=
  match p with
  | [] => true
  | y :: p' =>
      match s with
      | [] => false
      | x :: s' => (x =? y) && startswith s' p'
      end
  end.

(** [p in s] for two strings: substring test. *)
Fixpoint str_contains (s p : pystr) : bool :=
  startswith s p ||
  match s with
  | [] => false
  | _ :: s' => str_contains s' p
  end.

(** [s.split("\n")[0]] *)
Fixpoint first_line (s : pystr) : pystr :=
  match s with
  | [] => []
  | c :: t => if c =? 10 then [] else c :: first_line t
  end.

(** [str.isspace] on one code point: the characters [str.strip()] removes. *)
Definition isspace (c : N) : bool :=
  ((9 <=? c) && (c <=? 13)) || ((28 <=? c) && (c <=? 32)) ||
  (c =? 133) || (c =? 160) || (c =? 5760) ||
  ((8192 <=? c) && (c <=? 8202)) || (c =? 8232) || (c =? 8233) ||
  (c =? 8239) || (c =? 8287) || (c =? 12288).

Fixpoint lstrip (s : pystr) : pystr :=
  match s with
  | [] => []
  | c :: t => if isspace c then lstrip t else s
  end.

(** [s.strip()] *)
Definition strip (s : pystr) : pystr := rev (lstrip (rev (lstrip s))).

(** *** UTF-8 *)

Definition is_cont (b : N) : bool := (128 <=? b) && (b <=? 191).

Definition cont (acc b : N) : N := acc * 64 + (b - 128).

(** [bytes.decode("utf-8")]: strict decoding; [None] stands for
    [UnicodeDecodeError]. *)
Fixpoint utf8_decode (bs : pybytes) : option pystr :=
  match bs with
  | [] => Some []
  | b0 :: t0 =>
      if b0 <? 128 then option_map (cons b0) (utf8_decode t0)
      else if (194 <=? b0) && (b0 <=? 223) then
        match t0 with
        | b1 :: t1 =>
            if is_cont b1
            then option_map (cons (cont (b0 - 192) b1)) (utf8_decode t1)
            else None
        | _ => None
        end
      else if (224 <=? b0) && (b0 <=? 239) then
        match t0 with
        | b1 :: b2 :: t2 =>
            let c := cont (cont (b0 - 224) b1) b2 in
            if is_cont b1 && is_cont b2 && (2048 <=? c) &&
               negb ((55296 <=? c) && (c <=? 57343))
            then option_map (cons c) (utf8_decode t2)
            else None
        | _ => None
        end
      else if (240 <=? b0) && (b0 <=? 244) then
        match t0 with
        | b1 :: b2 :: b3 :: t3 =>
            let c := cont (cont (cont (b0 - 240) b1) b2) b3 in
            if is_cont b1 && is_cont b2 && is_cont b3 &&
               (65536 <=? c) && (c <=? 1114111)
            then option_map (cons c) (utf8_decode t3)
            else None
        | _ => None
        end
      else None
  end.

(** [str.encode()]: UTF-8; [None] stands for [UnicodeEncodeError] (lone
    surrogates, which a [str] may hold). *)
Fixpoint utf8_encode (s : pystr) : option pybytes :=
  match s with
  | [] => Some []
  | c :: t =>
      let rest := utf8_encode t in
      if c <? 128 then option_map (cons c) rest
      else if c <? 2048 then
        option_map (fun r => (192 + c / 64) :: (128 + c mod 64) :: r) rest
      else if (55296 <=? c) && (c <=? 57343) then None
      else if c <? 65536 then
        option_map (fun r => (224 + c / 4096) :: (128 + (c / 64) mod 64) ::
                             (128 + c mod 64) :: r) rest
      else if c <=? 1114111 then
        option_map (fun r => (240 + c / 262144) :: (128 + (c / 4096) mod 64) ::
                             (128 + (c / 64) mod 64) :: (128 + c mod 64) :: r)
                   rest
      else None
  end.

Local Close Scope N_scope.

(** ** Python values

    The values [json.loads] can return: [None], [bool], [int], [float],
    [str], [list] and [dict].  A [dict] keeps its keys in insertion order and
    holds each key once. *)

(** A binary64 value: [FFin neg m e] is [(-1)^neg * m * 2^e] in canonical
    form ([2^52 <= m < 2^53] and [-1074 <= e <= 971], or [m < 2^52] and
    [e = -1074]). *)
Inductive pyfloat : Type :=
| FNaN
| FInf (neg : bool)
| FFin (neg : bool) (m e : Z).

#[warnings="-register-all"]
Inductive pyval : Type :=
| PNone
| PBool (b : bool)
| PInt (z : Z)
| PFloat (f : pyfloat)
| PStr (s : pystr)
| PList (l : list pyval)
| PDict (d : list (pystr * pyval)).

Definition pydict := list (pystr * pyval).

(** Exceptions the plugin can meet.  [ValueError] covers its subclasses
    ([JSONDecodeError], [UnicodeDecodeError]).  [RecursionError] (a
    [RuntimeError], not a [ValueError]) is what the decoder raises on a text
    nested deeper than the interpreter allows. *)
Inductive exn : Type :=
| ValueError
| AttributeError
| TypeError
| RecursionError.

Inductive result (A : Type) : Type :=
| Ok (a : A)
| Raise (e : exn).
Arguments Ok {A} a.
Arguments Raise {A} e.

(** [d.get(k)] at the level of the association list. *)
Fixpoint dict_lookup (d : pydict) (k : pystr) : option pyval :=
  match d with
  | [] => None
  | (k', v) :: d' => if str_eqb k' k then Some v else dict_lookup d' k
  end.

(** [d[k] = v]: an existing key keeps its place, a new key goes last. *)
Fixpoint dict_set (d : pydict) (k : pystr) (v : pyval) : pydict :=
  match d with
  | [] => [(k, v)]
  | (k', v') :: d' =>
      if str_eqb k' k then (k', v) :: d' else (k', v') :: dict_set d' k v
  end.

(** [x.get(k, default)]: only a [dict] has the method. *)
Definition py_get (x : pyval) (k : pystr) (default : pyval) : result pyval :=
  match x with
  | PDict d =>
      Ok (match dict_lookup d k with Some v => v | None => default end)
  | _ => Raise AttributeError
  end.

(** [x[k] = v] with a string key [k]: only a [dict] accepts it. *)
Definition py_setitem (x : pyval) (k : pystr) (v : pyval) : result pyval :=
  match x with
  | PDict d => Ok (PDict (dict_set d k v))
  | _ => Raise TypeError
  end.

(** The items a [for] loop (or [list(x)]) goes through. *)
Definition py_iter (x : pyval) : result (list pyval) :=
  match x with
  | PList l => Ok l
  | PStr s => Ok (map (fun c => PStr [c]) s)
  | PDict d => Ok (map (fun kv => PStr (fst kv)) d)
  | _ => Raise TypeError
  end.

(** Truth value of a Python object. *)
Definition truthy (x : pyval) : bool :=
  match x with
  | PNone => false
  | PBool b => b
  | PInt z => negb (z =? 0)%Z
  | PFloat (FFin _ m _) => negb (m =? 0)%Z
  | PFloat _ => true
  | PStr s => match s with [] => false | _ => true end
  | PList l => match l with [] => false | _ => true end
  | PDict d => match d with [] => false | _ => true end
  end.

(** Truth value of an optional string ([None] or a [str]). *)
Definition truthy_str (o : option pystr) : bool :=
  match o with
  | Some (_ :: _) => true
  | _ => false
  end.

(** *** Hashing and set membership

    A [set] holds hashable values and compares them with [==]: [True], [1]
    and [1.0] are one element, [0.0] and [-0.0] too; the [NaN] that
    [json.loads] returns is a single object. *)
Inductive hkey : Type :=
| KNone
| KNum (z : Z)
| KFrac (neg : bool) (m e : Z)
| KInf (neg : bool)
| KNaN
| KStr (s : pystr).

Definition float_key (f : pyfloat) : hkey :=
  match f with
  | FNaN => KNaN
  | FInf s => KInf s
  | FFin neg m e =>
      let sg := if neg then (-1)%Z else 1%Z in
      if (0 <=? e)%Z then KNum (sg * m * 2 ^ e)
      else if (m mod 2 ^ (- e) =? 0)%Z then KNum (sg * (m / 2 ^ (- e)))
      else KFrac neg m e
  end.

(** [hash(x)]: lists and dicts are unhashable. *)
Definition py_hash (x : pyval) : result hkey :=
  match x with
  | PNone => Ok KNone
  | PBool b => Ok (KNum (if b then 1 else 0))
  | PInt z => Ok (KNum z)
  | PFloat f => Ok (float_key f)
  | PStr s => Ok (KStr s)
  | PList _ | PDict _ => Raise TypeError
  end.

Definition hkey_eqb (a b : hkey) : bool :=
  match a, b with
  | KNone, KNone => true
  | KNum x, KNum y => (x =? y)%Z
  | KFrac s m e, KFrac s' m' e' => Bool.eqb s s' && (m =? m')%Z && (e =? e')%Z
  | KInf s, KInf s' => Bool.eqb s s'
  | KNaN, KNaN => true
  | KStr x, KStr y => str_eqb x y
  | _, _ => false
  end.

(** [k in s] for a set [s] given by its elements' keys. *)
Definition set_mem (k : hkey) (s : list hkey) : bool := existsb (hkey_eqb k) s.

(** [a == b] for a string [a] and any value [b]. *)
Definition str_eq_val (a : pystr) (b : pyval) : bool :=
  match b with
  | PStr s => str_eqb a s
  | _ => false
  end.

(** [a in x] for a string [a]: element of a list, substring of a string, key
    of a dict; other values are not containers. *)
Definition str_in (a : pystr) (x : pyval) : result bool :=
  match x with
  | PList l => Ok (existsb (str_eq_val a) l)
  | PStr s => Ok (str_contains s a)
  | PDict d => Ok (existsb (fun kv => str_eqb a (fst kv)) d)
  | _ => Raise TypeError
  end.

(** ** [json.loads]

    The decoder of the standard library with its default settings (strict
    strings, [NaN] and [Infinity] accepted), following the scanner's
    recursive descent. *)

(** The limits that the interpreter puts on the decoder.  [max_depth] is the
    number of arrays and objects that can be open at once: the scanner
    enters a recursive call for each, and one more raises [RecursionError];
    the number depends on the recursion limit and on the depth of the stack
    at the call.  [max_int_digits] is the number of digits that an integer
    literal can have ([ValueError] past it): 4300 by default since CPython
    3.11, [None] for no limit. *)
Class Interpreter : Type := {
  max_depth : nat;
  max_int_digits : option nat;
}.

Local Open Scope Z_scope.

(** [float(text)]: the decimal [(-1)^neg * D * 10^E] rounded to the nearest
    binary64 value, ties to even. *)
Definition round_half_even (n d : Z) : Z :=
  let q := n / d in
  let r := n mod d in
  if 2 * r <? d then q
  else if 2 * r =? d then (if Z.even q then q else q + 1)
  else q + 1.

Definition float_of_decimal (neg : bool) (D E : Z) : pyfloat :=
  if D =? 0 then FFin neg 0 (-1074)
  else
    let n := D * 10 ^ Z.max E 0 in
    let d := 10 ^ Z.max (- E) 0 in
    let num e := if e <? 0 then n * 2 ^ (- e) else n in
    let den e := if e <? 0 then d else d * 2 ^ e in
    let e0 := Z.log2 n - Z.log2 d - 53 in
    let e1 := if num e0 / den e0 <? 2 ^ 53 then e0 else e0 + 1 in
    let e2 := Z.max e1 (-1074) in
    let m := round_half_even (num e2) (den e2) in
    let (m', e') := if m =? 2 ^ 53 then (2 ^ 52, e2 + 1) else (m, e2) in
    if 971 <? e' then FInf neg else FFin neg m' e'.

Local Close Scope Z_scope.
Local Open Scope N_scope.

Definition is_ws (c : N) : bool :=
  (c =? 32) || (c =? 9) || (c =? 10) || (c =? 13).

Fixpoint skip_ws (s : pystr) : pystr :=
  match s with
  | [] => []
  | c :: t => if is_ws c then skip_ws t else s
  end.

Definition is_digit (c : N) : bool := (48 <=? c) && (c <=? 57).

Definition hex_digit (c : N) : option N :=
  if is_digit c then Some (c - 48)
  else if (97 <=? c) && (c <=? 102) then Some (c - 87)
  else if (65 <=? c) && (c <=? 70) then Some (c - 55)
  else None.

Definition hex4 (a b c d : N) : option N :=
  match hex_digit a, hex_digit b, hex_digit c, hex_digit d with
  | Some x, Some y, Some z, Some w => Some (((x * 16 + y) * 16 + z) * 16 + w)
  | _, _, _, _ => None
  end.

(** The character a one-letter escape stands for. *)
Definition unescape (c : N) : option N :=
  if (c =? 34) || (c =? 92) || (c =? 47) then Some c
  else if c =? 98 then Some 8
  else if c =? 102 then Some 12
  else if c =? 110 then Some 10
  else if c =? 114 then Some 13
  else if c =? 116 then Some 9
  else None.

Definition high_surrogate (c : N) : bool := (55296 <=? c) && (c <=? 56319).
Definition low_surrogate (c : N) : bool := (56320 <=? c) && (c <=? 57343).
Definition join_surrogates (hi lo : N) : N :=
  65536 + ((hi - 55296) * 1024 + (lo - 56320)).

Definition scanned_cons (c : N) (r : option (pystr * pystr))
  : option (pystr * pystr) :=
  match r with
  | Some (s, rest) => Some (c :: s, rest)
  | None => None
  end.

(** [scanstring]: the text after an opening quote, up to the closing one;
    returns the decoded string and what follows it. *)
Fixpoint scanstring (s : pystr) : option (pystr * pystr) :=
  match s with
  | [] => None
  | c :: t =>
      if c =? 34 then Some ([], t)
      else if c =? 92 then
        match t with
        | [] => None
        | e :: t' =>
            if e =? 117 then
              match t' with
              | h1 :: h2 :: h3 :: h4 :: r =>
                  match hex4 h1 h2 h3 h4 with
                  | None => None
                  | Some u =>
                      if high_surrogate u then
                        match r with
                        | b :: v :: l1 :: l2 :: l3 :: l4 :: r2 =>
                            if (b =? 92) && (v =? 117) then
                              match hex4 l1 l2 l3 l4 with
                              | None => None
                              | Some u2 =>
                                  if low_surrogate u2
                                  then scanned_cons (join_surrogates u u2)
                                                    (scanstring r2)
                                  else scanned_cons u (scanstring r)
                              end
                            else scanned_cons u (scanstring r)
                        | _ => scanned_cons u (scanstring r)
                        end
                      else scanned_cons u (scanstring r)
                  end
              | _ => None
              end
            else
              match unescape e with
              | Some x => scanned_cons x (scanstring t')
              | None => None
              end
        end
      else if c <=? 31 then None
      else scanned_cons c (scanstring t)
  end.

Fixpoint span_digits (s : pystr) : pystr * pystr :=
  match s with
  | [] => ([], [])
  | c :: t =>
      if is_digit c
      then let (ds, r) := span_digits t in (c :: ds, r)
      else ([], s)
  end.

Definition digits_value (ds : pystr) : Z :=
  fold_left (fun acc c => (acc * 10 + Z.of_N (c - 48))%Z) ds 0%Z.

(** The integer part of a number: [0], or a non-zero digit and more digits. *)
Definition scan_int_part (s : pystr) : option (pystr * pystr) :=
  match s with
  | [] => None
  | c :: t =>
      if c =? 48 then Some ([c], t)
      else if is_digit c then let (ds, r) := span_digits t in Some (c :: ds, r)
      else None
  end.

(** An optional fraction: a dot and at least one digit. *)
Definition scan_frac (s : pystr) : option pystr * pystr :=
  match s with
  | dot :: d :: t =>
      if (dot =? 46) && is_digit d
      then let (ds, r) := span_digits t in (Some (d :: ds), r)
      else (None, s)
  | _ => (None, s)
  end.

(** An optional exponent: [e] or [E], an optional sign, at least one digit. *)
Definition scan_exp (s : pystr) : option Z * pystr :=
  match s with
  | e :: t =>
      if (e =? 101) || (e =? 69) then
        let '(neg, t1) :=
          match t with
          | sg :: t' =>
              if sg =? 45 then (true, t')
              else if sg =? 43 then (false, t')
              else (false, t)
          | [] => (false, t)
          end in
        match span_digits t1 with
        | ([], _) => (None, s)
        | (ds, r) =>
            (Some (if neg then (- digits_value ds)%Z else digits_value ds), r)
        end
      else (None, s)
  | [] => (None, s)
  end.

(** An integer literal has more digits than the interpreter converts. *)
Definition too_many_digits {py : Interpreter} (ds : pystr) : bool :=
  match max_int_digits with
  | Some n => Nat.ltb n (List.length ds)
  | None => false
  end.

(** [match_number]: an [int] when the text has neither fraction nor exponent,
    a [float] otherwise. *)
Definition match_number {py : Interpreter} (s : pystr)
  : option (pyval * pystr) :=
  let '(neg, s1) :=
    match s with
    | c :: t => if c =? 45 then (true, t) else (false, s)
    | [] => (false, s)
    end in
  match scan_int_part s1 with
  | None => None
  | Some (ip, r1) =>
      let '(fp, r2) := scan_frac r1 in
      let '(ex, r3) := scan_exp r2 in
      match fp, ex with
      | None, None =>
          if too_many_digits ip then None
          else
            Some (PInt (if neg then (- digits_value ip)%Z
                        else digits_value ip), r3)
      | _, _ =>
          let fd := match fp with Some f => f | None => [] end in
          let e := match ex with Some e => e | None => 0%Z end in
          Some (PFloat (float_of_decimal neg (digits_value (ip ++ fd))
                          (e - Z.of_nat (List.length fd))%Z), r3)
      end
  end.

(** Outcome of scanning one JSON term: the value and the text after it, a
    malformed text ([ValueError]), a text nested deeper than the interpreter
    allows ([RecursionError]), or a recursion budget of the model too small
    for the text ([scan_once_fuel] shows that [json_loads] never meets
    it). *)
Inductive scan : Type :=
| Scanned (v : pyval) (rest : pystr)
| Malformed
| TooDeep
| Exhausted.

Definition of_option (o : option (pyval * pystr)) : scan :=
  match o with
  | Some (v, r) => Scanned v r
  | None => Malformed
  end.

(** [scan_once]: one JSON term at the head of [s]; [parse_elements] and
    [parse_members] are the loops of [JSONArray] and [JSONObject], entered
    after the opening bracket when the container is not empty.  [depth] is
    the number of arrays and objects that can still be entered: the scanner
    checks it at the opening bracket, before it reads what follows. *)
Fixpoint scan_once {py : Interpreter} (fuel depth : nat) (s : pystr) : scan :=
  match fuel with
  | O => Exhausted
  | S f =>
      match s with
      | [] => Malformed
      | c :: t =>
          if c =? 34 then
            match scanstring t with
            | Some (str, r) => Scanned (PStr str) r
            | None => Malformed
            end
          else if c =? 123 then
            match depth with
            | O => TooDeep
            | S d =>
                match skip_ws t with
                | c1 :: r1 =>
                    if c1 =? 125 then Scanned (PDict []) r1
                    else parse_members f d (c1 :: r1) []
                | [] => Malformed
                end
            end
          else if c =? 91 then
            match depth with
            | O => TooDeep
            | S d =>
                match skip_ws t with
                | c1 :: r1 =>
                    if c1 =? 93 then Scanned (PList []) r1
                    else parse_elements f d (c1 :: r1) []
                | [] => Malformed
                end
            end
          else if startswith s (U "null") then Scanned PNone (skipn 4 s)
          else if startswith s (U "true") then Scanned (PBool true) (skipn 4 s)
          else if startswith s (U "false")
          then Scanned (PBool false) (skipn 5 s)
          else if startswith s (U "NaN") then Scanned (PFloat FNaN) (skipn 3 s)
          else if startswith s (U "Infinity")
          then Scanned (PFloat (FInf false)) (skipn 8 s)
          else if startswith s (U "-Infinity")
          then Scanned (PFloat (FInf true)) (skipn 9 s)
          else of_option (match_number s)
      end
  end

with parse_elements {py : Interpreter} (fuel depth : nat) (s : pystr)
                    (acc : list pyval) : scan :=
  match fuel with
  | O => Exhausted
  | S f =>
      match scan_once f depth s with
      | Scanned v r =>
          match skip_ws r with
          | c :: r1 =>
              if c =? 93 then Scanned (PList (rev (v :: acc))) r1
              else if c =? 44
              then parse_elements f depth (skip_ws r1) (v :: acc)
              else Malformed
          | [] => Malformed
          end
      | other => other
      end
  end

with parse_members {py : Interpreter} (fuel depth : nat) (s : pystr)
                   (acc : pydict) : scan :=
  match fuel with
  | O => Exhausted
  | S f =>
      match s with
      | q :: t =>
          if q =? 34 then
            match scanstring t with
            | None => Malformed
            | Some (k, r) =>
                match skip_ws r with
                | colon :: r1 =>
                    if colon =? 58 then
                      match scan_once f depth (skip_ws r1) with
                      | Scanned v r2 =>
                          match skip_ws r2 with
                          | c :: r3 =>
                              if c =? 125
                              then Scanned (PDict (dict_set acc k v)) r3
                              else if c =? 44
                              then parse_members f depth (skip_ws r3)
                                                 (dict_set acc k v)
                              else Malformed
                          | [] => Malformed
                          end
                      | other => other
                      end
                    else Malformed
                | [] => Malformed
                end
            end
          else Malformed
      | [] => Malformed
      end
  end.

(** [json.loads(s)] for a [str]: a leading byte-order mark is refused, white
    space around the one term is skipped, anything after it is an error. *)
Definition json_loads {py : Interpreter} (s : pystr) : result pyval :=
  if startswith s [65279] then Raise ValueError
  else
    match scan_once (S (2 * List.length s)) max_depth (skip_ws s) with
    | Scanned v r =>
        match skip_ws r with
        | [] => Ok v
        | _ :: _ => Raise ValueError
        end
    | TooDeep => Raise RecursionError
    | _ => Raise ValueError
    end.

Local Close Scope N_scope.

(** ** Exceptions and effects *)

Definition rbind {A B} (r : result A) (k : A -> result B) : result B :=
  match r with
  | Ok a => k a
  | Raise e => Raise e
  end.

Notation "'let?' x := e 'in' k" := (rbind e (fun x => k))
  (at level 10, x name, e at level 100, k at level 200).

(** ** The pure parts of the plugin *)

(** [for r in results: r["isLocal"] = tag] over the items of [results]. *)
Fixpoint mark_all (tag : bool) (items : list pyval) : result (list pyval) :=
  match items with
  | [] => Ok []
  | r :: rest =>
      let? r' := py_setitem r (U "isLocal") (PBool tag) in
      let? rest' := mark_all tag rest in
      Ok (r' :: rest')
  end.

(** The loop mutates the records in place and [results] itself is returned:
    a list with its records marked, any other iterable as it was (the loop
    ends without raising only when it has no item). *)
Definition mark_results (tag : bool) (results : pyval) : result pyval :=
  let? items := py_iter results in
  let? marked := mark_all tag items in
  Ok (match results with
      | PList _ => PList marked
      | other => other
      end).

(** [list_snippets] and [search_snippets] after the call of [run_temper]:
    [output] is what it returned, [tag] the value of [isLocal] to set. *)
Definition parseList {py : Interpreter} (tag : bool) (output : option pystr)
  : result pyval :=
  match output with
  | Some (c :: o) =>
      match json_loads (c :: o) with
      | Raise ValueError => Ok (PList [])
      | Raise e => Raise e
      | Ok data =>
          let? results := py_get data (U "results") (PList []) in
          mark_results tag results
      end
  | _ => Ok (PList [])
  end.

(** [r.get("slug")] hashed, for each record: the elements of
    [set(r.get("slug") for r in local)]. *)
Fixpoint slug_keys (items : list pyval) : result (list hkey) :=
  match items with
  | [] => Ok []
  | r :: rest =>
      let? slug := py_get r (U "slug") PNone in
      let? k := py_hash slug in
      let? ks := slug_keys rest in
      Ok (k :: ks)
  end.

(** The loop over [cloud], appending to [merged]. *)
Fixpoint merge_cloud (local_slugs : list hkey) (items merged : list pyval)
  : result (list pyval) :=
  match items with
  | [] => Ok merged
  | r :: rest =>
      let? slug := py_get r (U "slug") PNone in
      let? k := py_hash slug in
      merge_cloud local_slugs rest
        (if set_mem k local_slugs then merged else merged ++ [r])
  end.

(** [_snippet_cache] *)
Record cache : Type := {
  local : pyval;
  cloud : pyval;
  loading : bool;
}.

Definition empty_cache : cache :=
  {| local := PList []; cloud := PList []; loading := false |}.

Definition get_all_snippets (c : cache) : result (list pyval) :=
  let? local_items := py_iter (local c) in
  let? local_slugs := slug_keys local_items in
  let? cloud_items := py_iter (cloud c) in
  merge_cloud local_slugs cloud_items local_items.

(** The synthetic results of [run_snippet]. *)
Definition failed_to_run : pyval :=
  PDict [(U "success", PBool false); (U "output", PStr []);
         (U "error", PStr (U "Failed to run temper"))].

Definition invalid_response (output : pystr) : pyval :=
  PDict [(U "success", PBool false); (U "output", PStr output);
         (U "error", PStr (U "Invalid response: " ++ firstn 200 output))].

(** [run_snippet] after the call of [run_temper]: both [except] clauses
    catch [ValueError] only. *)
Definition parseRun {py : Interpreter} (output : option pystr)
  : result pyval :=
  match output with
  | Some (c :: o) =>
      let output := c :: o in
      match json_loads output with
      | Ok v => Ok v
      | Raise ValueError =>
          if startswith output (U "{") then
            match json_loads (first_line output) with
            | Ok v => Ok v
            | Raise ValueError => Ok (invalid_response output)
            | Raise e => Raise e
            end
          else Ok (invalid_response output)
      | Raise e => Raise e
      end
  | _ => Ok failed_to_run
  end.

(** One line of the quick panel: the title (followed by the [[local]] tag
    when [tagged]) and the description. *)
Record panel_item : Type := {
  title : pyval;
  tagged : bool;
  description : pyval;
}.

Definition format_snippet_item (snippet : pyval) : result panel_item :=
  let? slug := py_get snippet (U "slug") (PStr []) in
  let? title := py_get snippet (U "title") slug in
  let? description := py_get snippet (U "description") (PStr []) in
  let? is_local := py_get snippet (U "isLocal") (PBool false) in
  Ok {| title := title; tagged := truthy is_local;
        description := description |}.

(** [[r for r in results if language in r.get("languages", [])]] *)
Fixpoint filter_language (language : pystr) (results : list pyval)
  : result (list pyval) :=
  match results with
  | [] => Ok []
  | r :: rest =>
      let? languages := py_get r (U "languages") (PList []) in
      let? keep := str_in language languages in
      let? rest' := filter_language language rest in
      Ok (if keep then r :: rest' else rest')
  end.

Fixpoint map_result {A B} (f : A -> result B) (l : list A) : result (list B) :=
  match l with
  | [] => Ok []
  | a :: l' =>
      let? b := f a in
      let? bs := map_result f l' in
      Ok (b :: bs)
  end.

(** ** The editor and the external tool

    What the plugin does to its surroundings is recorded as a trace of
    events; what the surroundings answer comes from an environment: the
    operating system that spawns the tool, and the settings. *)

Inductive popen_result : Type :=
| Spawned                 (* the process started *)
| NotFound                (* [FileNotFoundError] *)
| SpawnFailed.            (* any other exception *)

Inductive communicate_result : Type :=
| Exited (stdout stderr : pybytes) (returncode : Z)
| CommunicateFailed.      (* an exception while the process runs *)

Inductive event : Type :=
| Popen (argv : list pystr)
| Communicate (input : option pybytes)
| Print (text : pystr)
| ErrorMessage (not_found : bool)
| StatusMessage (text : pystr)
| InsertText (text : pyval)
| QuickPanel (items : list panel_item)
| Callback.

Record state (World : Type) : Type := {
  world : World;
  snippet_cache : cache;
  trace : list event;
}.

Section Plugin.

Context {py : Interpreter}.
Variable World : Type.

(** [subprocess.Popen(argv, ...)] and [proc.communicate(input)] *)
Variable popen : list pystr -> World -> popen_result * World.
Variable communicate : option pybytes -> World -> communicate_result * World.

(** [get_cli_path()] and [os.path.expanduser("~/Snippets")] *)
Variable cli_path : pystr.
Variable home_snippets : pystr.

Definition M (A : Type) : Type := state World -> result A * state World.

Definition ret {A} (a : A) : M A := fun st => (Ok a, st).

Definition bind {A B} (m : M A) (k : A -> M B) : M B :=
  fun st =>
    match m st with
    | (Ok a, st') => k a st'
    | (Raise e, st') => (Raise e, st')
    end.

Definition lift {A} (r : result A) : M A := fun st => (r, st).

Definition emit (ev : event) : M unit :=
  fun st => (Ok tt, {| world := world st;
                       snippet_cache := snippet_cache st;
                       trace := trace st ++ [ev] |}).

Definition read_cache : M cache := fun st => (Ok (snippet_cache st), st).

Definition write_cache (c : cache) : M unit :=
  fun st => (Ok tt, {| world := world st;
                       snippet_cache := c;
                       trace := trace st |}).

Definition os_popen (argv : list pystr) : M popen_result :=
  fun st =>
    let (r, w) := popen argv (world st) in
    (Ok r, {| world := w;
              snippet_cache := snippet_cache st;
              trace := trace st ++ [Popen argv] |}).

Definition os_communicate (input : option pybytes) : M communicate_result :=
  fun st =>
    let (r, w) := communicate input (world st) in
    (Ok r, {| world := w;
              snippet_cache := snippet_cache st;
              trace := trace st ++ [Communicate input] |}).

Notation "x <- m ;; k" := (bind m (fun x => k))
  (at level 61, m at next level, right associativity).
Notation "m ;;; k" := (bind m (fun _ => k))
  (at level 61, right associativity).

(** The two [except] clauses of [run_temper]. *)
Definition not_found : M (option pystr) :=
  emit (ErrorMessage true) ;;; ret None.

Definition other_error : M (option pystr) :=
  emit (ErrorMessage false) ;;; ret None.

Definition run_temper (args : list pystr) (stdin : option pystr)
  : M (option pystr) :=
  spawned <- os_popen (cli_path :: args) ;;
  match spawned with
  | NotFound => not_found
  | SpawnFailed => other_error
  | Spawned =>
      match (if truthy_str stdin
             then match stdin with
                  | Some s => option_map Some (utf8_encode s)
                  | None => Some None
                  end
             else Some None) with
      | None => other_error
      | Some input =>
          done <- os_communicate input ;;
          match done with
          | CommunicateFailed => other_error
          | Exited stdout stderr returncode =>
              let decode_stdout :=
                match utf8_decode stdout with
                | Some text => ret (Some (strip text))
                | None => other_error
                end in
              if negb (returncode =? 0)%Z &&
                 match stderr with [] => false | _ => true end
              then
                match utf8_decode stderr with
                | Some text =>
                    emit (Print (U "Temper error: " ++ text)) ;;;
                    decode_stdout
                | None => other_error
                end
              else decode_stdout
          end
      end
  end.

Definition language_args (language : option pystr) : list pystr :=
  match language with
  | Some (c :: l) => [U "-l"; c :: l]
  | _ => []
  end.

Definition list_snippets (language : option pystr) : M pyval :=
  output <- run_temper ([U "list"; U "--json"] ++ language_args language)
                       None ;;
  lift (parseList true output).

Definition search_snippets (query language : option pystr) : M pyval :=
  output <- run_temper ([U "search"] ++
                        match query with
                        | Some (c :: q) => [c :: q]
                        | _ => []
                        end ++
                        [U "--json"] ++ language_args language) None ;;
  lift (parseList false output).

(** [get_snippet_info]: [None] is Python's [None]. *)
Definition get_snippet_info (slug : pystr) (language : option pystr)
  : M (option pyval) :=
  output <- run_temper ([U "info"; slug; U "--json"] ++
                        language_args language) None ;;
  match output with
  | Some (c :: o) =>
      match json_loads (c :: o) with
      | Ok v => ret (Some v)
      | Raise ValueError => ret None
      | Raise e => lift (Raise e)
      end
  | _ => ret None
  end.

Definition run_snippet (slug : pystr) (stdin : option pystr) : M pyval :=
  output <- run_temper [U "run"; slug; U "--json"] stdin ;;
  lift (parseRun output).

(** The body of the worker thread of [refresh_snippet_cache]. *)
Definition do_refresh (language : option pystr) (include_cloud : bool)
                      (callback : bool) : M unit :=
  c0 <- read_cache ;;
  write_cache {| local := local c0; cloud := cloud c0; loading := true |} ;;;
  l <- list_snippets language ;;
  c1 <- read_cache ;;
  write_cache {| local := l; cloud := cloud c1; loading := loading c1 |} ;;;
  (if include_cloud then
     r <- search_snippets None language ;;
     c2 <- read_cache ;;
     write_cache {| local := local c2; cloud := r; loading := loading c2 |}
   else ret tt) ;;;
  c3 <- read_cache ;;
  write_cache {| local := local c3; cloud := cloud c3; loading := false |} ;;;
  if callback then emit Callback else ret tt.

(** Truth value of what [get_snippet_info] returns. *)
Definition found (snippet : option pyval) : bool :=
  match snippet with
  | Some v => truthy v
  | None => false
  end.

(** [TemperSearchInsertCommand.show_panel]: returns [self.results] when
    the panel is shown. *)
Definition show_panel (language : option pystr)
  : M (option (list pyval)) :=
  c <- read_cache ;;
  all_snippets <- lift (get_all_snippets c) ;;
  match all_snippets with
  | [] =>
      emit (StatusMessage (U "Temper: No snippets available")) ;;;
      ret None
  | _ :: _ =>
      results <-
        match language with
        | Some (ch :: l) =>
            filtered <- lift (filter_language (ch :: l) all_snippets) ;;
            ret (match filtered with
                 | [] => all_snippets
                 | _ :: _ => filtered
                 end)
        | _ => ret all_snippets
        end ;;
      items <- lift (map_result format_snippet_item results) ;;
      emit (QuickPanel items) ;;;
      emit (StatusMessage []) ;;;
      ret (Some results)
  end.

(** [TemperSearchInsertCommand.fetch_and_insert] with [self.language]. *)
Definition fetch_and_insert (language : option pystr) (slug : pystr)
  : M unit :=
  first <- get_snippet_info slug language ;;
  snippet <-
    (if negb (found first) && truthy_str language &&
        negb (match language with
              | Some l => str_eqb l (U "javascript")
              | None => false
              end)
     then get_snippet_info slug (Some (U "javascript"))
     else ret first) ;;
  match snippet with
  | Some v =>
      if truthy v then
        code <- lift (py_get v (U "code") (PStr [])) ;;
        emit (InsertText code) ;;;
        emit (StatusMessage (U "Temper: Inserted " ++ slug))
      else emit (StatusMessage (U "Failed to fetch snippet: " ++ slug))
  | None => emit (StatusMessage (U "Failed to fetch snippet: " ++ slug))
  end.

Definition get_snippets_dir : M pyval :=
  output <- run_temper [U "config"; U "--json"] None ;;
  match output with
  | Some (c :: o) =>
      match json_loads (c :: o) with
      | Ok config => lift (py_get config (U "snippetsDir") (PStr []))
      | Raise ValueError => ret (PStr home_snippets)
      | Raise e => lift (Raise e)
      end
  | _ => ret (PStr home_snippets)
  end.

(** [is_snippet_file(file_path)], the value of [is_enabled] and
    [is_visible]; [file_path] is [None] for a buffer without a file. *)
Definition is_snippet_file (file_path : option pystr) : M bool :=
  match file_path with
  | Some (c :: p) =>
      snippets_dir <- get_snippets_dir ;;
      match snippets_dir with
      | PStr d => ret (startswith (c :: p) d)
      | _ => lift (Raise TypeError)
      end
  | _ => ret false
  end.

End Plugin.

(** ** Paths and syntax names

    [os.path] is [posixpath] here: the separator is the slash. *)

(** [p.rfind(ch) + 1]: the index after the last [ch] of [p], 0 when [p]
    has none. *)
Fixpoint after_last (ch : N) (p : pystr) : nat :=
  match p with
  | [] => O
  | c :: t =>
      match after_last ch t with
      | O => if N.eqb c ch then 1%nat else O
      | S n => S (S n)
      end
  end.

(** [os.path.basename(p)]: [p[p.rfind("/") + 1:]] *)
Definition basename (p : pystr) : pystr := skipn (after_last 47 p) p.

(** [os.path.splitext(p)[0]]: the text before the last dot, when that dot
    comes after the last slash and after a character of the file name that
    is not a dot; the whole of [p] otherwise. *)
Definition splitext_root (p : pystr) : pystr :=
  let sep := after_last 47 p in
  let dot := after_last 46 p in
  if Nat.ltb sep dot &&
     existsb (fun c => negb (N.eqb c 46)) (firstn (dot - 1 - sep) (skipn sep p))
  then firstn (dot - 1) p
  else p.

(** [get_slug_from_path(file_path)]; [None] is Python's [None]. *)
Definition get_slug_from_path (file_path : option pystr) : option pystr :=
  match file_path with
  | Some (c :: p) => Some (splitext_root (basename (c :: p)))
  | _ => None
  end.

(** [LANGUAGE_MAP], in the order of its entries, which is the order in which
    a [dict] is iterated (Python 3.7 and later). *)
Definition LANGUAGE_MAP : list (pystr * pystr) :=
  [(U "javascript", U "javascript"); (U "js", U "javascript");
   (U "typescript", U "javascript"); (U "ts", U "javascript");
   (U "python", U "python"); (U "ruby", U "ruby"); (U "php", U "php");
   (U "shell", U "bash"); (U "bash", U "bash"); (U "sh", U "bash")].

(** The loop of [get_temper_language]: the language of the first key that
    occurs in [name]. *)
Fixpoint first_match (name : pystr) (items : list (pystr * pystr))
  : option pystr :=
  match items with
  | [] => None
  | (key, lang) :: rest =>
      if str_contains name key then Some lang else first_match name rest
  end.

(** [str.lower] on ASCII text: the letters [A] to [Z] move to [a] to [z]. *)
Definition ascii_lower (s : pystr) : pystr :=
  map (fun c => if N.leb 65 c && N.leb c 90 then (c + 32)%N else c) s.

Definition ascii_upper (s : pystr) : pystr :=
  map (fun c => if N.leb 97 c && N.leb c 122 then (c - 32)%N else c) s.

Definition is_ascii (s : pystr) : Prop := Forall (fun c => (c < 128)%N) s.

Section Language.

(** [str.lower]: the Unicode case tables are a parameter (the properties
    that need it assume that it is [ascii_lower] on ASCII text). *)
Variable lower : pystr -> pystr.

(** [get_temper_language(view)], from the view's [syntax] setting (the empty
    string when the view has none). *)
Definition get_temper_language (syntax : pystr) : option pystr :=
  first_match (lower (basename syntax)) LANGUAGE_MAP.

End Language.

(** ** Commands

    A text built with [str.format] keeps its arguments as values: [Str v]
    stands for [str(v)], which is [s] itself for a string [s]. *)
Inductive text : Type :=
| Lit (s : pystr)
| Str (v : pyval)
| Cat (a b : text).

(** What a worker thread hands to the UI thread with [sublime.set_timeout],
    in order: a status message, the command [temper_apply_result] with its
    mode, text and region, the output panel filled and shown; or a callback
    that raised when it read the missing selection. *)
Inductive ui_call : Type :=
| UiStatus (msg : text)
| UiApplyResult (mode : pystr) (output : pyval) (region : Z * Z)
| UiOutputPanel (content : text)
| UiCallbackFailed.

(** The run commands: [TemperRunBaseCommand] and its three subclasses. *)
Inductive run_command : Type :=
| RunBase
| RunReplace
| RunInsertBelow
| RunShowOutput.

(** The class attribute [mode]. *)
Definition mode (cmd : run_command) : pystr :=
  match cmd with
  | RunBase | RunReplace => U "replace"
  | RunInsertBelow => U "insert_below"
  | RunShowOutput => U "show_output"
  end.

(** [apply_output(output)] of each class, with [self.slug] and
    [self.selection]. *)
Definition apply_output (cmd : run_command) (slug output : pyval)
                        (selection : option (Z * Z)) : list ui_call :=
  match cmd with
  | RunBase => []
  | RunReplace =>
      match selection with
      | Some region =>
          [UiApplyResult (U "replace") output region;
           UiStatus (Cat (Lit (U "Temper: Replaced with "))
                         (Cat (Str slug) (Lit (U " output"))))]
      | None => [UiCallbackFailed]
      end
  | RunInsertBelow =>
      match selection with
      | Some region =>
          [UiApplyResult (U "insert_below") output region;
           UiStatus (Cat (Lit (U "Temper: Inserted "))
                         (Cat (Str slug) (Lit (U " output below"))))]
      | None => [UiCallbackFailed]
      end
  | RunShowOutput =>
      [UiOutputPanel (Cat (Lit (U "Snippet: "))
                          (Cat (Str slug)
                               (Cat (Lit ([10%N] ++ U "---" ++ [10%N]))
                                    (Str output))));
       UiStatus (Cat (Lit (U "Temper: Output from ")) (Str slug))]
  end.

(** [TemperRunCurrentSnippetCommand.show_output(output, slug)] *)
Definition show_output (output : text) (slug : pystr) : list ui_call :=
  [UiOutputPanel (Cat (Lit (U "Snippet: "))
                      (Cat (Lit slug)
                           (Cat (Lit ([10%N] ++ U "---" ++ [10%N])) output)));
   UiStatus (Lit (U "Temper: " ++ slug))].

(** What the run commands keep between their steps: [self.selection],
    [self.selected_text] and [self.results]. *)
Record run_session : Type := {
  selection : option (Z * Z);
  selected_text : pystr;
  results : list pyval;
}.

(** How [on_select] ends: the panel was dismissed, the index is past the
    list ([IndexError]), the record has no slug ([KeyError]), or the worker
    thread ran and scheduled its calls. *)
Inductive selected : Type :=
| Dismissed
| NoSuchIndex
| NoSlug
| Worked (calls : list ui_call).

Section Commands.

Context {py : Interpreter}.
Variable World : Type.
Variable popen : list pystr -> World -> popen_result * World.
Variable communicate : option pybytes -> World -> communicate_result * World.
Variable cli_path : pystr.

(** The view: [str.lower] for its syntax name, its selection regions and
    [view.substr]. *)
Variable lower : pystr -> pystr.
Variable sel : list (Z * Z).
Variable substr : Z * Z -> pystr.

Notation "x <- m ;; k" := (bind m (fun x => k))
  (at level 61, m at next level, right associativity).
Notation "m ;;; k" := (bind m (fun _ => k))
  (at level 61, right associativity).

(** [run_snippet(slug, stdin)] for any value as slug: [subprocess.Popen]
    raises [TypeError] on an argument that is not a string, before any
    process is spawned, and [run_temper] catches it. *)
Definition run_snippet_value (slug : pyval) (stdin : option pystr)
  : M World pyval :=
  match slug with
  | PStr s => run_snippet popen communicate cli_path s stdin
  | _ => output <- other_error (World := World) ;; lift (parseRun output)
  end.

(** [TemperRunBaseCommand.run_and_apply] *)
Definition run_and_apply (cmd : run_command) (slug : pyval)
                         (session : run_session) : M World (list ui_call) :=
  result <- run_snippet_value slug
              (match selected_text session with
               | [] => None
               | text => Some text
               end) ;;
  success <- lift (py_get result (U "success") PNone) ;;
  if negb (truthy success) then
    error_msg <- lift (py_get result (U "error") (PStr (U "Unknown error"))) ;;
    ret [UiStatus (Cat (Lit (U "Error: ")) (Str error_msg))]
  else
    output <- lift (py_get result (U "output") (PStr [])) ;;
    ret (apply_output cmd slug output (selection session)).

(** [TemperRunBaseCommand.run] up to the refresh: the session it starts,
    [None] when it gives up for want of a selection. *)
Definition run_start (cmd : run_command) : M World (option run_session) :=
  let first_empty :=
    match sel with
    | [] => true
    | (a, b) :: _ => (a =? b)%Z
    end in
  if negb (str_eqb (mode cmd) (U "show_output")) && first_empty then
    emit (StatusMessage (U "No text selected")) ;;; ret None
  else
    emit (StatusMessage (U "Temper: Loading snippets...")) ;;;
    ret (Some {| selection := hd_error sel;
                 selected_text := match sel with
                                  | [] => []
                                  | (a, b) :: _ =>
                                      if (a =? b)%Z then [] else substr (a, b)
                                  end;
                 results := [] |}).

(** [show_panel] of [TemperRunBaseCommand.run]: the merged view, never
    filtered. *)
Definition run_show_panel (session : run_session)
  : M World (option run_session) :=
  c <- @read_cache World ;;
  all_snippets <- lift (get_all_snippets c) ;;
  match all_snippets with
  | [] =>
      emit (StatusMessage (U "Temper: No snippets available")) ;;;
      ret None
  | _ :: _ =>
      items <- lift (map_result format_snippet_item all_snippets) ;;
      emit (QuickPanel items) ;;;
      emit (StatusMessage []) ;;;
      ret (Some {| selection := selection session;
                   selected_text := selected_text session;
                   results := all_snippets |})
  end.

(** [TemperRunBaseCommand.on_select(index)] and the worker thread it
    starts. *)
Definition run_on_select (cmd : run_command) (session : run_session)
                         (index : Z) : M World selected :=
  if (index <? 0)%Z then emit (StatusMessage []) ;;; ret Dismissed
  else
    match nth_error (results session) (Z.to_nat index) with
    | None => ret NoSuchIndex
    | Some chosen =>
        match chosen with
        | PDict d =>
            match dict_lookup d (U "slug") with
            | Some slug =>
                calls <- run_and_apply cmd slug session ;;
                ret (Worked calls)
            | None => ret NoSlug
            end
        | _ => lift (Raise TypeError)
        end
    end.

(** A whole run session: the command, the refresh in its worker thread, the
    panel, and the user's choice [index]. *)
Definition run_command_session (cmd : run_command) (index : Z)
  : M World (option selected) :=
  started <- run_start cmd ;;
  match started with
  | None => ret None
  | Some session =>
      do_refresh popen communicate cli_path None true true ;;;
      shown <- run_show_panel session ;;
      match shown with
      | None => ret None
      | Some session' =>
          ended <- run_on_select cmd session' index ;;
          ret (Some ended)
      end
  end.

(** [TemperRunCurrentSnippetCommand.run_and_show(slug, stdin)] *)
Definition run_and_show (slug : pystr) (stdin : option pystr)
  : M World (list ui_call) :=
  result <- run_snippet popen communicate cli_path slug stdin ;;
  success <- lift (py_get result (U "success") PNone) ;;
  if negb (truthy success) then
    error_msg <- lift (py_get result (U "error") (PStr (U "Unknown error"))) ;;
    ret (UiStatus (Cat (Lit (U "Error: ")) (Str error_msg)) ::
         show_output (Cat (Lit (U "Error: ")) (Str error_msg)) slug)
  else
    output <- lift (py_get result (U "output") (PStr [])) ;;
    ret (show_output (Str output) slug).

(** [TemperRunCurrentSnippetCommand.run] for the view's file: the calls its
    worker thread scheduled, [None] when there is no slug. *)
Definition run_current_snippet (file_path : option pystr)
  : M World (option (list ui_call)) :=
  match get_slug_from_path file_path with
  | Some (c :: s) =>
      let stdin :=
        match sel with
        | [] => None
        | (a, b) :: _ => if (a =? b)%Z then None else Some (substr (a, b))
        end in
      emit (StatusMessage (U "Temper: Running " ++ (c :: s) ++ U "...")) ;;;
      calls <- run_and_show (c :: s) stdin ;;
      ret (Some calls)
  | _ =>
      emit (StatusMessage (U "Temper: No file open")) ;;;
      ret None
  end.

(** [len(x)] and [str(n)] for a count [n]. *)
Definition py_len (x : pyval) : result nat :=
  match x with
  | PList l => Ok (List.length l)
  | PStr s => Ok (List.length s)
  | PDict d => Ok (List.length d)
  | _ => Raise TypeError
  end.

Definition decimal (n : nat) : pystr :=
  U (NilZero.string_of_uint (Nat.to_uint n)).

(** [TemperRefreshCacheCommand.run] with its refresh and [on_done]. *)
Definition refresh_cache : M World unit :=
  emit (StatusMessage (U "Temper: Refreshing snippet cache...")) ;;;
  do_refresh popen communicate cli_path None true true ;;;
  c <- @read_cache World ;;
  local_count <- lift (py_len (local c)) ;;
  cloud_count <- lift (py_len (cloud c)) ;;
  emit (StatusMessage (U "Temper: Loaded " ++ decimal local_count ++
                       U " local + " ++ decimal cloud_count ++
                       U " cloud snippets")).

(** [TemperSearchInsertCommand.run] with its refresh and [show_panel]. *)
Definition search_insert (syntax : pystr) : M World (option (list pyval)) :=
  let language := get_temper_language lower syntax in
  emit (StatusMessage (U "Temper: Loading snippets...")) ;;;
  do_refresh popen communicate cli_path None true true ;;;
  show_panel language.

End Commands.

(** ** Vocabulary of the properties *)

(** A scan that did not run out of budget and, when it returned a value,
    consumed some of the text [s]. *)
Definition progresses (res : scan) (s : pystr) : Prop :=
  res <> Exhausted /\
  forall v r, res = Scanned v r -> List.length r < List.length s.

Definition is_record (v : pyval) : Prop := exists d, v = PDict d.

(** A record's slug: [r.get("slug")]. *)
Definition slug_of (r : pydict) : pyval :=
  match dict_lookup r (U "slug") with
  | Some v => v
  | None => PNone
  end.

Definition hashable (v : pyval) : bool :=
  match v with
  | PList _ | PDict _ => false
  | _ => true
  end.

Definition slug_key (r : pydict) : hkey :=
  match py_hash (slug_of r) with
  | Ok k => k
  | Raise _ => KNone
  end.

(** The slug of [r] is in the set of the slugs of [L]. *)
Definition slug_in (L : list pydict) (r : pydict) : bool :=
  existsb (fun l => hkey_eqb (slug_key r) (slug_key l)) L.

(** The cache with the records [L] as local tier and [R] as cloud tier. *)
Definition catalog (L R : list pydict) (busy : bool) : cache :=
  {| local := PList (map PDict L); cloud := PList (map PDict R);
     loading := busy |}.

(** [path] names a file below the directory [dir]: it goes on after [dir]
    and a separator. *)
Definition dir_prefix (dir : pystr) : pystr :=
  match rev dir with
  | 47%N :: _ => dir
  | _ => dir ++ [47%N]
  end.

Definition resides_under (dir path : pystr) : bool :=
  startswith path (dir_prefix dir).

(** The lowered base name of [syntax] holds [key]. *)
Definition syntax_has (lower : pystr -> pystr) (syntax : pystr) (key : string)
  : bool :=
  str_contains (lower (basename syntax)) (U key).
Arguments syntax_has lower syntax key%_string.

(** *** Reading a trace *)

(** [st'] is [st] after the events [evs], with the cache untouched. *)
Definition after {World} (st st' : state World) (evs : list event) : Prop :=
  trace st' = trace st ++ evs /\ snippet_cache st' = snippet_cache st.

(** The command lines spawned, the texts inserted and the status messages
    shown, in order. *)
Definition popens (evs : list event) : list (list pystr) :=
  flat_map (fun ev => match ev with Popen argv => [argv] | _ => [] end) evs.

Definition inserts (evs : list event) : list pyval :=
  flat_map (fun ev => match ev with InsertText t => [t] | _ => [] end) evs.

Definition statuses (evs : list event) : list pystr :=
  flat_map (fun ev => match ev with StatusMessage t => [t] | _ => [] end) evs.

(** The state after [show_panel] has shown a panel with the lines [items]. *)
Definition presents {World} (st : state World) (items : list panel_item)
  : state World :=
  {| world := world st; snippet_cache := snippet_cache st;
     trace := trace st ++ [QuickPanel items; StatusMessage []] |}.

Definition javascript : pystr := U "javascript".

(** The command line of a detail query for [slug] under [language]. *)
Definition info_query (cli_path slug : pystr) (language : option pystr)
  : list pystr :=
  cli_path :: [U "info"; slug; U "--json"] ++ language_args language.

(** The session has an active language, and it is not the tool's default. *)
Definition other_than_default (language : option pystr) : bool :=
  match language with
  | Some (c :: l) => negb (str_eqb (c :: l) javascript)
  | _ => false
  end.

(** What a query returned counts as nothing. *)
Definition nothing (r : result (option pyval)) : bool :=
  match r with
  | Ok (Some v) => negb (truthy v)
  | Ok None => true
  | Raise _ => false
  end.

(** The flags of the error dialogs shown, in order. *)
Definition dialogs (evs : list event) : list bool :=
  flat_map (fun ev => match ev with ErrorMessage b => [b] | _ => [] end) evs.

(** The inputs written to the processes, in order. *)
Definition inputs (evs : list event) : list (option pybytes) :=
  flat_map (fun ev => match ev with Communicate i => [i] | _ => [] end) evs.

(** A text made of whitespace only, and a text that neither starts nor ends
    with whitespace. *)
Definition blank (s : pystr) : Prop := Forall (fun c => isspace c = true) s.

Definition trimmed (s : pystr) : Prop :=
  (forall c rest, s = c :: rest -> isspace c = false) /\
  (forall front c, s = front ++ [c] -> isspace c = false).

(** Both tiers of the cache iterate over records. *)
Definition holds_records (c : cache) : Prop :=
  (exists items, py_iter (local c) = Ok items /\ Forall is_record items) /\
  (exists items, py_iter (cloud c) = Ok items /\ Forall is_record items).

(** The events of the invoker: spawning, writing the input, logging and the
    error dialog. *)
Definition invoker_event (ev : event) : bool :=
  match ev with
  | Popen _ | Communicate _ | Print _ | ErrorMessage _ => true
  | _ => false
  end.

(** How often the completion callback was scheduled. *)
Definition callbacks (evs : list event) : nat :=
  List.length (filter (fun ev => match ev with Callback => true | _ => false end)
                      evs).

(** The events of a refresh: those of the invoker and the callback. *)
Definition refresh_event (ev : event) : bool :=
  match ev with
  | Callback => true
  | other => invoker_event other
  end.

(** The command lines of the two fetches. *)
Definition list_query (cli_path : pystr) (language : option pystr)
  : list pystr :=
  cli_path :: [U "list"; U "--json"] ++ language_args language.

Definition search_query (cli_path : pystr) (language : option pystr)
  : list pystr :=
  cli_path :: [U "search"; U "--json"] ++ language_args language.

(** The edits among the scheduled calls: mode, text and region of each
    [temper_apply_result]. *)
Definition edits (calls : list ui_call) : list (pystr * pyval * (Z * Z)) :=
  flat_map (fun call => match call with
                        | UiApplyResult m t r => [(m, t, r)]
                        | _ => []
                        end) calls.

(** The panels shown, in order. *)
Definition panels (evs : list event) : list (list panel_item) :=
  flat_map (fun ev => match ev with QuickPanel items => [items] | _ => [] end)
           evs.

(** The first selection region is missing or empty. *)
Definition nothing_selected (sel : list (Z * Z)) : bool :=
  match sel with
  | [] => true
  | (a, b) :: _ => (a =? b)%Z
  end.

(** The outcome of a scan that is decided by the text read so far: a value
    or the depth limit; and that outcome when [x] follows the text. *)
Definition decided (res : scan) : bool :=
  match res with
  | Scanned _ _ | TooDeep => true
  | _ => false
  end.

Definition extend (res : scan) (x : pystr) : scan :=
  match res with
  | Scanned v r => Scanned v (r ++ x)
  | other => other
  end.

(** ** Scripted tools and sample data

    An environment in which every spawn succeeds and the tool answers from
    its command line alone: the world is the command line of the process
    spawned last.  A script gives the output, the error stream and the exit
    status for a command line. *)

Definition script : Type := list pystr -> pybytes * pybytes * Z.

Definition scripted_popen (argv : list pystr) (w : list pystr)
  : popen_result * list pystr := (Spawned, argv).

Definition scripted_communicate (tool : script) (input : option pybytes)
                                (w : list pystr)
  : communicate_result * list pystr :=
  let '(out, err, rc) := tool w in (Exited out err rc, w).

(** An environment in which the tool's executable does not exist. *)
Definition missing_popen (argv : list pystr) (w : list pystr)
  : popen_result * list pystr := (NotFound, w).

Definition start (c : cache) : state (list pystr) :=
  {| world := []; snippet_cache := c; trace := [] |}.

(** A tool that prints [out] whatever it is asked. *)
Definition prints (out : pystr) : script := fun _ => (out, [], 0%Z).

(** A tool that knows the snippet only under [javascript]. *)
Definition javascript_only : script :=
  fun argv =>
    if existsb (str_eqb (U "python")) argv then ([], [], 0%Z)
    else (J "{'slug':'x','code':'slugify(s)'}", [], 0%Z).

(** A tool whose configuration names [/home/u/Snippets]. *)
Definition configured : script :=
  prints (J "{'snippetsDir':'/home/u/Snippets'}").

(** A tool that prints [ok], writes one byte that is not UTF-8 to its error
    stream and exits with status 1. *)
Definition noisy : script := fun _ => (U "ok", [255%N], 1%Z).

(** A tool that prints [ok] between blanks, warns on its error stream and
    exits with status 1. *)
Definition warns : script :=
  fun _ => (U "  ok" ++ [10%N], U "warn", 1%Z).

Definition record (slug title : string) (is_local : bool) : pydict :=
  [(U "slug", PStr (U slug)); (U "title", PStr (U title));
   (U "isLocal", PBool is_local)].

Definition sample_local : list pydict :=
  [record "slugify" "Slugify" true; record "uuid" "UUID" true].

Definition sample_cloud : list pydict :=
  [record "uuid" "UUID v4" false; record "camel-case" "Camel case" false].

(** Two records that the tool reports under one slug: the text, the decoded
    payload, the reported records and the records as a fetch returns
    them. *)
Definition dup_payload : pystr :=
  J "{'results':[{'slug':'a','title':'one'},{'slug':'a','title':'two'}]}".

Definition dup_reported : list pydict :=
  [[(U "slug", PStr (U "a")); (U "title", PStr (U "one"))];
   [(U "slug", PStr (U "a")); (U "title", PStr (U "two"))]].

Definition dup_data : pydict := [(U "results", PList (map PDict dup_reported))].

Definition dup_records (tag : bool) : list pydict :=
  [[(U "slug", PStr (U "a")); (U "title", PStr (U "one"));
    (U "isLocal", PBool tag)];
   [(U "slug", PStr (U "a")); (U "title", PStr (U "two"));
    (U "isLocal", PBool tag)]].

(** A run result followed by text that the snippet leaked. *)
Definition leaked_output : pystr :=
  J "{'success':true,'output':'x'}" ++ [10%N] ++ U "LOG: leaked text".

(** An interpreter with room for 990 nested arrays and objects and no limit
    on the digits of an integer: CPython before 3.11 with its default
    recursion limit of 1000, called from a shallow stack. *)
Definition cpython : Interpreter :=
  {| max_depth := 990; max_int_digits := None |}.

(** A text of [n] opening brackets, and one of [n] objects opened one in
    the other. *)
Definition brackets (n : nat) : pystr := repeat 91%N n.


(** A process that writes back what it reads and exits with status 0. *)
Definition echo_communicate (input : option pybytes) (w : list pystr)
  : communicate_result * list pystr :=
  (Exited (match input with Some b => b | None => [] end) [] 0%Z, w).

(** * Properties *)

Unset Implicit Arguments.

(** ** The recursion budget of [json_loads] is enough

    Every scanner consumes at least one character per term, so a budget of
    twice the length of the text is never used up. *)

Lemma skip_ws_length (s : pystr) : List.length (skip_ws s) <= List.length s.
Proof.
  induction s as [|c t IH]; simpl; [lia|].
  destruct (is_ws c); simpl; lia.
Qed.

Lemma scanned_cons_inv c o x r :
  scanned_cons c o = Some (x, r) -> exists x', o = Some (x', r).
Proof.
  destruct o as [[x' r']|]; simpl; intros H; [|discriminate].
  injection H as _ ->. eauto.
Qed.

Lemma scanstring_length_bounded n :
  forall s x r, List.length s <= n -> scanstring s = Some (x, r) ->
                List.length r < List.length s.
Proof.
  induction n as [|n IH]; intros s x r Hn H.
  - destruct s; [discriminate|simpl in Hn; lia].
  - destruct s as [|c t]; [discriminate|].
    cbn [scanstring] in H.
    repeat match type of H with
           | (if ?b then _ else _) = _ => destruct b
           | match ?t with [] => _ | _ :: _ => _ end = _ => destruct t
           | match ?o with Some _ => _ | None => _ end = _ => destruct o
           | None = Some _ => discriminate
           | Some _ = Some _ => injection H as _ <-; simpl; lia
           | scanned_cons _ _ = _ =>
               apply scanned_cons_inv in H as [x' H];
               apply IH in H; simpl in *; lia
           end.
Qed.

Lemma scanstring_length s x r :
  scanstring s = Some (x, r) -> List.length r < List.length s.
Proof. apply scanstring_length_bounded with (n := List.length s). lia. Qed.

Lemma span_digits_length s ds r :
  span_digits s = (ds, r) -> List.length r <= List.length s.
Proof.
  revert ds r. induction s as [|c t IH]; simpl; intros ds r H.
  - injection H as _ <-. simpl. lia.
  - destruct (is_digit c).
    + destruct (span_digits t) as [ds' r'] eqn:E.
      injection H as _ <-. specialize (IH _ _ eq_refl). lia.
    + injection H as _ <-. simpl. lia.
Qed.

Lemma scan_int_part_length s ip r :
  scan_int_part s = Some (ip, r) -> List.length r < List.length s.
Proof.
  destruct s as [|c t]; simpl; [discriminate|].
  destruct (N.eqb c 48).
  - intros H. injection H as _ <-. lia.
  - destruct (is_digit c); [|discriminate].
    destruct (span_digits t) as [ds r'] eqn:E. intros H.
    injection H as _ <-. apply span_digits_length in E. lia.
Qed.

Lemma scan_frac_length s fp r :
  scan_frac s = (fp, r) -> List.length r <= List.length s.
Proof.
  unfold scan_frac. destruct s as [|dot [|d t]];
    try (intros H; injection H as _ <-; lia).
  destruct (N.eqb dot 46 && is_digit d).
  - destruct (span_digits t) as [ds r'] eqn:E. intros H.
    injection H as _ <-. apply span_digits_length in E. simpl. lia.
  - intros H. injection H as _ <-. lia.
Qed.

Lemma scan_exp_length s ex r :
  scan_exp s = (ex, r) -> List.length r <= List.length s.
Proof.
  unfold scan_exp. destruct s as [|e t]; [intros H; injection H as _ <-; lia|].
  destruct (N.eqb e 101 || N.eqb e 69);
    [|intros H; injection H as _ <-; lia].
  assert (Hsign : forall neg t1,
             List.length t1 <= List.length t ->
             (let '(neg, t1) := (neg, t1) in
              match span_digits t1 with
              | ([], _) => (None, e :: t)
              | (ds, r0) =>
                  (Some (if (neg : bool)
                         then (- digits_value ds)%Z
                         else digits_value ds), r0)
              end) = (ex, r) -> List.length r <= List.length (e :: t)).
  { intros neg t1 Ht1. destruct (span_digits t1) as [ds r0] eqn:E.
    apply span_digits_length in E.
    destruct ds; intros H; injection H as _ <-; simpl; lia. }
  destruct t as [|sg t']; [apply (Hsign false); lia|].
  destruct (N.eqb sg 45); [apply (Hsign true); simpl; lia|].
  destruct (N.eqb sg 43); apply (Hsign false); simpl; lia.
Qed.

Section Decoder.

Context {py : Interpreter}.

Lemma match_number_length s v r :
  match_number s = Some (v, r) -> List.length r < List.length s.
Proof.
  unfold match_number.
  assert (Hbody : forall neg s1,
             List.length s1 <= List.length s ->
             (let '(neg, s1) := (neg, s1) in
              match scan_int_part s1 with
              | None => None
              | Some (ip, r1) =>
                  let '(fp, r2) := scan_frac r1 in
                  let '(ex, r3) := scan_exp r2 in
                  match fp, ex with
                  | None, None =>
                      if too_many_digits ip then None
                      else
                        Some (PInt (if (neg : bool)
                                    then (- digits_value ip)%Z
                                    else digits_value ip), r3)
                  | _, _ =>
                      let fd := match fp with Some f => f | None => [] end in
                      let e := match ex with Some e => e | None => 0%Z end in
                      Some (PFloat (float_of_decimal neg
                                      (digits_value (ip ++ fd))
                                      (e - Z.of_nat (List.length fd))%Z), r3)
                  end
              end) = Some (v, r) -> List.length r < List.length s).
  { intros neg s1 Hs1.
    destruct (scan_int_part s1) as [[ip r1]|] eqn:E1; [|discriminate].
    destruct (scan_frac r1) as [fp r2] eqn:E2.
    destruct (scan_exp r2) as [ex r3] eqn:E3.
    apply scan_int_part_length in E1. apply scan_frac_length in E2.
    apply scan_exp_length in E3.
    destruct fp, ex; try destruct (too_many_digits ip); intros H;
      try discriminate H; injection H as _ <-; lia. }
  destruct s as [|c t]; [apply (Hbody false); lia|].
  destruct (N.eqb c 45); [apply (Hbody true); simpl; lia|].
  apply (Hbody false); lia.
Qed.

Lemma progresses_scanned v r s :
  List.length r < List.length s -> progresses (Scanned v r) s.
Proof.
  intros H. split; [discriminate|]. intros v' r' E. injection E as _ <-. exact H.
Qed.

Lemma progresses_malformed s : progresses Malformed s.
Proof. split; discriminate. Qed.

Lemma progresses_too_deep s : progresses TooDeep s.
Proof. split; discriminate. Qed.

Lemma progresses_weaken res s s' :
  progresses res s -> List.length s <= List.length s' -> progresses res s'.
Proof.
  intros [H1 H2] Hle. split; [exact H1|].
  intros v r E. specialize (H2 v r E). lia.
Qed.

Lemma scan_fuel (fuel : nat) :
  (forall depth s, 2 * List.length s < fuel ->
                   progresses (scan_once fuel depth s) s) /\
  (forall depth s acc, 2 * List.length s + 1 < fuel ->
                       progresses (parse_elements fuel depth s acc) s) /\
  (forall depth s acc, 2 * List.length s + 1 < fuel ->
                       progresses (parse_members fuel depth s acc) s).
Proof.
  induction fuel as [|f (IHs & IHe & IHm)].
  - repeat split; intros; lia.
  - assert (Hskip : forall n (s : pystr),
                 List.length (skipn (S n) s) < List.length s \/ s = []).
    { intros n [|c t]; [now right|left].
      rewrite length_skipn. simpl. lia. }
    split; [|split].
    + (* scan_once *)
      intros depth [|c t] Hf; cbn [scan_once]; [apply progresses_malformed|].
      simpl List.length in Hf.
      destruct (N.eqb c 34).
      { destruct (scanstring t) as [[str r]|] eqn:E;
          [|apply progresses_malformed].
        apply scanstring_length in E. apply progresses_scanned. simpl. lia. }
      destruct (N.eqb c 123).
      { destruct depth as [|d]; [apply progresses_too_deep|].
        pose proof (skip_ws_length t) as Hw.
        destruct (skip_ws t) as [|c1 r1]; [apply progresses_malformed|].
        simpl in Hw.
        destruct (N.eqb c1 125); [apply progresses_scanned; simpl; lia|].
        eapply progresses_weaken; [apply IHm; simpl; lia|simpl; lia]. }
      destruct (N.eqb c 91).
      { destruct depth as [|d]; [apply progresses_too_deep|].
        pose proof (skip_ws_length t) as Hw.
        destruct (skip_ws t) as [|c1 r1]; [apply progresses_malformed|].
        simpl in Hw.
        destruct (N.eqb c1 93); [apply progresses_scanned; simpl; lia|].
        eapply progresses_weaken; [apply IHe; simpl; lia|simpl; lia]. }
      repeat match goal with
             | |- progresses (if ?b then _ else _) _ =>
                 destruct b;
                 [apply progresses_scanned;
                  match goal with
                  | |- List.length (skipn (S ?n) ?l) < _ =>
                      destruct (Hskip n l) as [H|H]; [exact H|discriminate H]
                  end|]
             end.
      destruct (match_number (c :: t)) as [[v r]|] eqn:E;
        [|apply progresses_malformed].
      apply match_number_length in E. now apply progresses_scanned.
    + (* parse_elements *)
      intros depth s acc Hf. cbn [parse_elements].
      destruct (IHs depth s ltac:(lia)) as [Hne Hlt].
      destruct (scan_once f depth s) as [v r| | |] eqn:E;
        [|apply progresses_malformed|apply progresses_too_deep|congruence].
      specialize (Hlt v r eq_refl).
      pose proof (skip_ws_length r) as Hw.
      destruct (skip_ws r) as [|c r1]; [apply progresses_malformed|].
      simpl in Hw.
      destruct (N.eqb c 93); [apply progresses_scanned; lia|].
      destruct (N.eqb c 44); [|apply progresses_malformed].
      pose proof (skip_ws_length r1) as Hw1.
      eapply progresses_weaken; [apply IHe; lia|lia].
    + (* parse_members *)
      intros depth s acc Hf. cbn [parse_members].
      destruct s as [|q t]; [apply progresses_malformed|].
      simpl List.length in Hf.
      destruct (N.eqb q 34); [|apply progresses_malformed].
      destruct (scanstring t) as [[k r]|] eqn:Ek; [|apply progresses_malformed].
      apply scanstring_length in Ek.
      pose proof (skip_ws_length r) as Hw.
      destruct (skip_ws r) as [|colon r1]; [apply progresses_malformed|].
      simpl in Hw.
      destruct (N.eqb colon 58); [|apply progresses_malformed].
      pose proof (skip_ws_length r1) as Hw1.
      destruct (IHs depth (skip_ws r1) ltac:(lia)) as [Hne Hlt].
      destruct (scan_once f depth (skip_ws r1)) as [v r2| | |] eqn:E;
        [|apply progresses_malformed|apply progresses_too_deep|congruence].
      specialize (Hlt v r2 eq_refl).
      pose proof (skip_ws_length r2) as Hw2.
      destruct (skip_ws r2) as [|c r3]; [apply progresses_malformed|].
      simpl in Hw2.
      destruct (N.eqb c 125); [apply progresses_scanned; simpl; lia|].
      destruct (N.eqb c 44); [|apply progresses_malformed].
      pose proof (skip_ws_length r3) as Hw3.
      eapply progresses_weaken; [apply IHm; lia|simpl; lia].
Qed.

(** [json_loads] never runs out of its recursion budget: a [ValueError] of
    the model is a malformed text. *)
Lemma scan_once_fuel (s : pystr) :
  scan_once (S (2 * List.length s)) max_depth (skip_ws s) <> Exhausted.
Proof.
  pose proof (skip_ws_length s) as Hw.
  destruct (scan_fuel (S (2 * List.length s))) as [H _].
  apply H. lia.
Qed.

End Decoder.

(** The decoder on a few texts: a later value of a repeated key replaces the
    earlier one in place; a fraction or an exponent makes a [float]; a
    trailing comma, text after the term and raw control characters in a
    string are errors. *)
Lemma json_loads_examples :
  json_loads (py := cpython) (J "{'a': 1, 'b': [true, null], 'a': 'x'}") =
  Ok (PDict [(U "a", PStr (U "x")); (U "b", PList [PBool true; PNone])]) /\
  json_loads (py := cpython) (J " [ -12, 2.5, 1e2 ] ") =
  Ok (PList [PInt (-12); PFloat (FFin false 5629499534213120 (-51));
             PFloat (FFin false 7036874417766400 (-46))]) /\
  json_loads (py := cpython) (J "'\u00e9\ud83d\ude00\n'") =
  Ok (PStr [233; 128512; 10]%N) /\
  json_loads (py := cpython) (J "[1,]") = Raise ValueError /\
  json_loads (py := cpython) (J "{} x") = Raise ValueError /\
  json_loads (py := cpython) (J "'a" ++ [9%N] ++ J "b'") = Raise ValueError /\
  json_loads (py := cpython) (U "01") = Raise ValueError.
Proof. repeat split; reflexivity. Qed.

(** ** Strings and dictionaries *)

Lemma str_eqb_eq (a b : pystr) : str_eqb a b = true <-> a = b.
Proof.
  revert b. induction a as [|x a IH]; intros [|y b]; simpl;
    try (split; [discriminate|discriminate]); [tauto|].
  rewrite andb_true_iff, N.eqb_eq, IH. split.
  - intros [-> ->]. reflexivity.
  - intros H. injection H as -> ->. auto.
Qed.

Lemma str_eqb_refl (a : pystr) : str_eqb a a = true.
Proof. now apply str_eqb_eq. Qed.

Lemma startswith_spec (s p : pystr) :
  startswith s p = true <-> exists rest, s = p ++ rest.
Proof.
  revert s. induction p as [|y p IH]; intros s; simpl.
  - split; [eauto|reflexivity].
  - destruct s as [|x s].
    + split; [discriminate|]. intros [rest H]. discriminate.
    + rewrite andb_true_iff, N.eqb_eq, IH. split.
      * intros [-> [rest ->]]. eauto.
      * intros [rest H]. injection H as -> ->. eauto.
Qed.

Lemma dict_lookup_set_other (d : pydict) (k k' : pystr) (v : pyval) :
  k <> k' -> dict_lookup (dict_set d k v) k' = dict_lookup d k'.
Proof.
  intros Hne. induction d as [|[k0 v0] d IH]; simpl.
  - destruct (str_eqb k k') eqn:E; [|reflexivity].
    apply str_eqb_eq in E. contradiction.
  - destruct (str_eqb k0 k) eqn:E; simpl.
    + apply str_eqb_eq in E. subst k0.
      destruct (str_eqb k k') eqn:E'; [|reflexivity].
      apply str_eqb_eq in E'. contradiction.
    + now rewrite IH.
Qed.

Lemma hkey_eqb_refl (k : hkey) : hkey_eqb k k = true.
Proof.
  destruct k; simpl; auto using Z.eqb_refl, str_eqb_refl.
  - now rewrite eqb_reflx, !Z.eqb_refl.
  - apply eqb_reflx.
Qed.

(** ** The merged view *)

Lemma py_hash_hashable (v : pyval) :
  hashable v = true -> exists k, py_hash v = Ok k.
Proof. destruct v; simpl; try discriminate; eauto. Qed.

Lemma slug_key_hash (r : pydict) :
  hashable (slug_of r) = true ->
  rbind (py_get (PDict r) (U "slug") PNone) py_hash = Ok (slug_key r).
Proof.
  intros H. simpl. unfold slug_key. fold (slug_of r).
  destruct (py_hash_hashable _ H) as [k ->]. reflexivity.
Qed.

Lemma slug_keys_records (L : list pydict) :
  Forall (fun r => hashable (slug_of r) = true) L ->
  slug_keys (map PDict L) = Ok (map slug_key L).
Proof.
  induction 1 as [|r L Hr _ IH]; [reflexivity|].
  cbn [map slug_keys]. pose proof (slug_key_hash r Hr) as Hk.
  unfold rbind in *. destruct (py_get (PDict r) (U "slug") PNone);
    [|discriminate].
  rewrite Hk, IH. reflexivity.
Qed.

Lemma merge_cloud_records (ks : list hkey) (R : list pydict) :
  Forall (fun r => hashable (slug_of r) = true) R ->
  forall merged,
    merge_cloud ks (map PDict R) merged =
    Ok (merged ++
        map PDict (filter (fun r => negb (set_mem (slug_key r) ks)) R)).
Proof.
  induction 1 as [|r R Hr _ IH]; intros merged.
  - simpl. now rewrite app_nil_r.
  - cbn [map merge_cloud filter]. pose proof (slug_key_hash r Hr) as Hk.
    unfold rbind in *. destruct (py_get (PDict r) (U "slug") PNone);
      [|discriminate].
    rewrite Hk, IH.
    destruct (set_mem (slug_key r) ks); simpl; [reflexivity|].
    now rewrite <- app_assoc.
Qed.

Lemma set_mem_slug_keys (L : list pydict) (r : pydict) :
  set_mem (slug_key r) (map slug_key L) = slug_in L r.
Proof.
  unfold set_mem, slug_in. induction L as [|l L IH]; simpl; [reflexivity|].
  now rewrite IH.
Qed.

Lemma slug_in_self (L : list pydict) (r : pydict) :
  In r L -> slug_in L r = true.
Proof.
  intros H. unfold slug_in. apply existsb_exists. exists r.
  split; [exact H|apply hkey_eqb_refl].
Qed.

(** C1: for every local sequence [L] and remote sequence [R] of records (a
    slug being a hashable value: a string, or absent, a number, a boolean),
    [get_all_snippets] returns all of [L] in its order, followed by exactly
    the records of [R] whose slug is not in the set of slugs of [L], in the
    order of [R]; no record that follows [L] has a slug of [L], and none of
    them is a record of [L]. *)
Theorem get_all_snippets_merged_view (L R : list pydict) (busy : bool) :
  Forall (fun r => hashable (slug_of r) = true) (L ++ R) ->
  let kept := filter (fun r => negb (slug_in L r)) R in
  get_all_snippets (catalog L R busy) = Ok (map PDict (L ++ kept)) /\
  (forall r, In r kept <-> In r R /\ slug_in L r = false) /\
  (forall r, In r L -> ~ In r kept).
Proof.
  intros H kept. apply Forall_app in H as [HL HR].
  split; [|split].
  - unfold get_all_snippets, catalog. simpl.
    rewrite (slug_keys_records L HL). simpl.
    rewrite (merge_cloud_records _ R HR). rewrite map_app. do 3 f_equal.
    apply filter_ext. intros r. now rewrite set_mem_slug_keys.
  - intros r. unfold kept. rewrite filter_In, negb_true_iff. tauto.
  - intros r Hr Hk. unfold kept in Hk. apply filter_In in Hk as [_ Hk].
    rewrite (slug_in_self _ _ Hr) in Hk. discriminate.
Qed.

Lemma get_all_snippets_merged_view_witness :
  get_all_snippets (catalog sample_local sample_cloud false) =
  Ok (map PDict (sample_local ++ [record "camel-case" "Camel case" false])).
Proof.
  assert (H : Forall (fun r => hashable (slug_of r) = true)
                     (sample_local ++ sample_cloud))
    by (repeat constructor).
  exact (proj1 (get_all_snippets_merged_view sample_local sample_cloud
                                             false H)).
Defined.

(** With one tier empty the merged view is the other tier. *)
Lemma get_all_snippets_one_tier (L R : list pydict) (busy : bool) :
  Forall (fun r => hashable (slug_of r) = true) L ->
  Forall (fun r => hashable (slug_of r) = true) R ->
  get_all_snippets (catalog L [] busy) = Ok (map PDict L) /\
  get_all_snippets (catalog [] R busy) = Ok (map PDict R).
Proof.
  intros HL HR. unfold get_all_snippets, catalog. simpl. split.
  - now rewrite (slug_keys_records L HL).
  - rewrite (merge_cloud_records [] R HR). simpl. do 2 f_equal.
    clear HR. induction R as [|r R IH]; simpl; [reflexivity|].
    now rewrite IH.
Qed.

Lemma get_all_snippets_one_tier_witness :
  get_all_snippets (catalog sample_local [] false) =
  Ok (map PDict sample_local) /\
  get_all_snippets (catalog [] sample_cloud false) =
  Ok (map PDict sample_cloud).
Proof.
  apply (get_all_snippets_one_tier sample_local sample_cloud false);
    repeat constructor.
Defined.

(** ** One tier's collection *)

Lemma json_loads_empty {py : Interpreter} : json_loads [] = Raise ValueError.
Proof. reflexivity. Qed.

Lemma mark_all_records (tag : bool) (rs : list pydict) :
  mark_all tag (map PDict rs) =
  Ok (map PDict (map (fun r => dict_set r (U "isLocal") (PBool tag)) rs)).
Proof.
  induction rs as [|r rs IH]; [reflexivity|].
  cbn [map mark_all]. unfold py_setitem. cbn [rbind]. rewrite IH.
  reflexivity.
Qed.

Lemma slug_of_tagged (r : pydict) (v : pyval) :
  slug_of (dict_set r (U "isLocal") v) = slug_of r.
Proof.
  unfold slug_of. rewrite dict_lookup_set_other; [reflexivity|].
  intros H. vm_compute in H. discriminate H.
Qed.

Lemma mark_all_records_only (tag : bool) (items marked : list pyval) :
  mark_all tag items = Ok marked ->
  Forall is_record items /\ Forall is_record marked.
Proof.
  revert marked. induction items as [|r items IH]; intros marked H.
  - injection H as <-. split; constructor.
  - cbn [mark_all] in H. destruct r; try discriminate H.
    cbn [py_setitem rbind] in H.
    destruct (mark_all tag items) as [rest|] eqn:E; [|discriminate H].
    injection H as <-. destruct (IH rest eq_refl) as [Hi Hm].
    split; constructor; try assumption; eexists; reflexivity.
Qed.

(** Whatever a fetch returns without raising iterates over records only: the
    tiers of the cache hold records. *)
Lemma parseList_records_only {py : Interpreter} (tag : bool)
                             (output : option pystr) (v : pyval) :
  parseList tag output = Ok v ->
  exists items, py_iter v = Ok items /\ Forall is_record items.
Proof.
  assert (Hnil : exists items : list pyval,
             py_iter (PList []) = Ok items /\ Forall is_record items)
    by (exists []; split; [reflexivity|constructor]).
  unfold parseList. destruct output as [[|c o]|];
    try (intros H; injection H as <-; exact Hnil).
  destruct (json_loads (c :: o)) as [data|[]];
    try (intros H; injection H as <-; exact Hnil); try discriminate.
  unfold rbind, mark_results, rbind.
  destruct (py_get data (U "results") (PList [])) as [results|];
    [|discriminate].
  destruct (py_iter results) as [items|] eqn:Ei; [|discriminate].
  destruct (mark_all tag items) as [marked|] eqn:Em; [|discriminate].
  apply mark_all_records_only in Em as [Hitems Hmarked].
  intros H. injection H as <-.
  destruct results; try discriminate Ei;
    [exists items; auto|exists marked; auto|exists items; auto].
Qed.

(** C2, as the code has it: for every tier collection produced by a single
    fetch whose payload is an object with a list of records as [results],
    the collection is the reported records in the reported order, each with
    [isLocal] set to the tier's tag; the slugs are the reported ones, one per
    reported record: nothing is removed, whether or not slugs repeat. *)
Theorem parseList_keeps_reported_records
    {py : Interpreter}
    (tag : bool) (output : pystr) (data : pydict) (rs : list pydict) :
  json_loads output = Ok (PDict data) ->
  dict_lookup data (U "results") = Some (PList (map PDict rs)) ->
  let tagged := map (fun r => dict_set r (U "isLocal") (PBool tag)) rs in
  parseList tag (Some output) = Ok (PList (map PDict tagged)) /\
  map slug_of tagged = map slug_of rs /\
  List.length tagged = List.length rs.
Proof.
  intros Hload Hres tagged. split; [|split].
  - destruct output as [|c o];
      [rewrite json_loads_empty in Hload; discriminate|].
    unfold parseList. rewrite Hload. unfold py_get. rewrite Hres.
    cbn [rbind]. unfold mark_results. cbn [py_iter rbind].
    rewrite mark_all_records. reflexivity.
  - unfold tagged. rewrite map_map. apply map_ext. intros r.
    apply slug_of_tagged.
  - unfold tagged. apply length_map.
Qed.

Lemma parseList_keeps_reported_records_witness :
  parseList (py := cpython) true (Some dup_payload) =
  Ok (PList (map PDict (dup_records true))).
Proof.
  exact (proj1 (parseList_keeps_reported_records (py := cpython) true
                  dup_payload dup_data dup_reported eq_refl eq_refl)).
Defined.

(** C2, as the claim states it, fails: the tool reports two records under
    the slug [a] and both are in the collection, for either tier. *)
Lemma parseList_duplicate_slugs :
  parseList (py := cpython) true (Some dup_payload) =
  Ok (PList (map PDict (dup_records true))) /\
  parseList (py := cpython) false (Some dup_payload) =
  Ok (PList (map PDict (dup_records false))) /\
  map slug_of (dup_records true) = [PStr (U "a"); PStr (U "a")] /\
  map slug_of (dup_records false) = [PStr (U "a"); PStr (U "a")] /\
  ~ NoDup [PStr (U "a"); PStr (U "a")].
Proof.
  repeat split; try reflexivity.
  intros H. inversion H as [|x l Hin _]. apply Hin. now left.
Qed.

(** ** Decoding the tool's output *)

(** The decoder raises [ValueError], or [RecursionError] on a text nested
    deeper than the interpreter allows. *)
Lemma json_loads_raises {py : Interpreter} (s : pystr) (e : exn) :
  json_loads s = Raise e -> e = ValueError \/ e = RecursionError.
Proof.
  unfold json_loads.
  destruct (startswith s [65279%N]); [left; congruence|].
  destruct (scan_once _ _ _) as [v r| | |];
    [|left; congruence|right; congruence|left; congruence].
  destruct (skip_ws r); [discriminate|left; congruence].
Qed.

(** What [parseList] does on a decode failure: a text that is not JSON
    ([json.loads] raises [ValueError]), or no output at all, gives the empty
    list. *)
Lemma parseList_not_json {py : Interpreter} (tag : bool) (output : pystr) :
  json_loads output = Raise ValueError ->
  parseList tag (Some output) = Ok (PList []).
Proof.
  intros H.
  destruct output as [|c o]; [reflexivity|].
  unfold parseList. rewrite H. reflexivity.
Qed.

Lemma parseList_no_output {py : Interpreter} (tag : bool) :
  parseList tag None = Ok (PList []) /\ parseList tag (Some []) = Ok (PList []).
Proof. split; reflexivity. Qed.

Lemma parseList_not_json_witness :
  parseList (py := cpython) true (Some (U "temper: command failed")) =
  Ok (PList []).
Proof.
  exact (parseList_not_json (py := cpython) true
                            (U "temper: command failed") eq_refl).
Defined.

(** Without output [run_snippet] reports that the tool could not be run. *)
Lemma parseRun_no_output {py : Interpreter} :
  parseRun None =
  Ok (PDict [(U "success", PBool false); (U "output", PStr []);
             (U "error", PStr (U "Failed to run temper"))]) /\
  parseRun (Some []) = parseRun None.
Proof. split; reflexivity. Qed.

(** C3 fails on the code: on a JSON text that is not an object,
    [data.get] raises [AttributeError], which [except ValueError] lets
    through; on results that are not records the marking loop raises
    [TypeError].  [list_snippets] and [search_snippets] raise to their
    caller. *)
Theorem parseList_raises_on_non_object :
  parseList (py := cpython) true (Some (U "[]")) = Raise AttributeError /\
  parseList (py := cpython) false (Some (U "null")) = Raise AttributeError /\
  parseList (py := cpython) true (Some (J "{'results':[1]}"))
  = Raise TypeError /\
  fst (list_snippets (py := cpython) scripted_popen
                     (scripted_communicate (prints (U "[]")))
                     (U "temper") None (start empty_cache))
  = Raise AttributeError /\
  fst (search_snippets (py := cpython) scripted_popen
                       (scripted_communicate (prints (U "[]")))
                       (U "temper") None None (start empty_cache))
  = Raise AttributeError.
Proof. repeat split; reflexivity. Qed.

(** The worker thread of a refresh dies on such an output: the cache stays
    marked as loading and the callback is never scheduled. *)
Lemma do_refresh_dies_on_non_object :
  let '(r, st) :=
    do_refresh (py := cpython) scripted_popen
               (scripted_communicate (prints (U "[]")))
               (U "temper") None true true (start empty_cache) in
  r = Raise AttributeError /\
  loading (snippet_cache st) = true /\
  ~ In Callback (trace st).
Proof.
  vm_compute. repeat split.
  intros [H|[H|[]]]; discriminate H.
Qed.

Local Open Scope N_scope.

(** ** The decoder and the first line of a text

    A term that the scanner reads from a text is read alike when a line
    feed and more text follow: no term holds a raw line feed, and a line
    feed ends every number and literal. *)

Lemma skip_ws_app (s x : pystr) (c : N) (r : pystr) :
  skip_ws s = c :: r -> skip_ws (s ++ x) = c :: r ++ x.
Proof.
  induction s as [|a s IH]; [discriminate|]. cbn [skip_ws app].
  destruct (is_ws a); [exact IH|]. intros H. injection H as <- <-.
  reflexivity.
Qed.

Lemma startswith_app (s x p : pystr) :
  startswith s p = true ->
  startswith (s ++ x) p = true /\
  skipn (List.length p) (s ++ x) = skipn (List.length p) s ++ x.
Proof.
  revert s. induction p as [|y p IH]; intros s H; [split; reflexivity|].
  destruct s as [|a s]; [discriminate H|]. cbn [startswith] in H.
  apply andb_true_iff in H as [Ha H]. destruct (IH s H) as [H1 H2].
  cbn [startswith app List.length skipn]. rewrite Ha, H1. split; auto.
Qed.

Lemma startswith_line_feed (s rest p : pystr) :
  ~ In 10 p -> startswith s p = false ->
  startswith (s ++ 10 :: rest) p = false.
Proof.
  revert s. induction p as [|y p IH]; intros s Hp H; [discriminate H|].
  destruct s as [|a s]; cbn [app startswith].
  - destruct (N.eqb_spec 10 y) as [E|_]; [|reflexivity].
    exfalso. apply Hp. now left.
  - cbn [startswith] in H. apply andb_false_iff in H as [H|H].
    + now rewrite H.
    + rewrite IH; [apply andb_false_r| |exact H].
      intros Hin. apply Hp. now right.
Qed.

Lemma span_digits_app (s rest ds r : pystr) :
  span_digits s = (ds, r) ->
  span_digits (s ++ 10 :: rest) = (ds, r ++ 10 :: rest).
Proof.
  revert ds r. induction s as [|c t IH]; intros ds r H.
  - injection H as <- <-. reflexivity.
  - cbn [span_digits app] in *. destruct (is_digit c).
    + destruct (span_digits t) as [ds' r'] eqn:E.
      injection H as <- <-. now rewrite (IH _ _ eq_refl).
    + injection H as <- <-. reflexivity.
Qed.

Lemma scan_int_part_app (s rest ip r : pystr) :
  scan_int_part s = Some (ip, r) ->
  scan_int_part (s ++ 10 :: rest) = Some (ip, r ++ 10 :: rest).
Proof.
  destruct s as [|c t]; [discriminate|]. cbn [scan_int_part app].
  destruct (c =? 48); [intros H; injection H as <- <-; reflexivity|].
  destruct (is_digit c); [|discriminate].
  destruct (span_digits t) as [ds r'] eqn:E. intros H. injection H as <- <-.
  now rewrite (span_digits_app _ rest _ _ E).
Qed.

Lemma scan_frac_app (s rest : pystr) (fp : option pystr) (r : pystr) :
  scan_frac s = (fp, r) ->
  scan_frac (s ++ 10 :: rest) = (fp, r ++ 10 :: rest).
Proof.
  destruct s as [|dot [|d t]]; cbn [scan_frac app].
  - intros H. injection H as <- <-. destruct rest; reflexivity.
  - intros H. injection H as <- <-.
    change (is_digit 10) with false. now rewrite andb_false_r.
  - destruct ((dot =? 46) && is_digit d).
    + destruct (span_digits t) as [ds r'] eqn:E. intros H.
      injection H as <- <-. now rewrite (span_digits_app _ rest _ _ E).
    + intros H. injection H as <- <-. reflexivity.
Qed.

Lemma scan_exp_app (s rest : pystr) (ex : option Z) (r : pystr) :
  scan_exp s = (ex, r) ->
  scan_exp (s ++ 10 :: rest) = (ex, r ++ 10 :: rest).
Proof.
  destruct s as [|e t]; cbn [scan_exp app].
  - intros H. injection H as <- <-. reflexivity.
  - destruct ((e =? 101) || (e =? 69));
      [|intros H; injection H as <- <-; reflexivity].
    assert (Hsign : forall (neg : bool) t1,
               match span_digits t1 with
               | ([], _) => (None, e :: t)
               | (ds, r0) =>
                   (Some (if neg then (- digits_value ds)%Z
                          else digits_value ds), r0)
               end = (ex, r) ->
               match span_digits (t1 ++ 10 :: rest) with
               | ([], _) => (None, e :: t ++ 10 :: rest)
               | (ds, r0) =>
                   (Some (if neg then (- digits_value ds)%Z
                          else digits_value ds), r0)
               end = (ex, r ++ 10 :: rest)).
    { intros neg t1. destruct (span_digits t1) as [ds r0] eqn:E.
      rewrite (span_digits_app _ rest _ _ E).
      destruct ds; intros H; injection H as <- <-; reflexivity. }
    destruct t as [|sg t']; [apply (Hsign false [])|].
    cbn [app]. destruct (sg =? 45); [apply (Hsign true)|].
    destruct (sg =? 43); [apply (Hsign false)|].
    apply (Hsign false (sg :: t')).
Qed.

Lemma scanned_cons_some (c : N) (o : option (pystr * pystr)) (x r : pystr) :
  scanned_cons c o = Some (x, r) -> exists x', o = Some (x', r) /\ x = c :: x'.
Proof.
  destruct o as [[x' r']|]; simpl; intros H; [|discriminate].
  injection H as <- <-. eauto.
Qed.

Ltac scanstring_step IH :=
  match goal with
  | H : scanned_cons ?c (scanstring ?r) = Some _ |- _ =>
      let x' := fresh "x" in
      apply scanned_cons_some in H as (x' & H & ->);
      apply IH in H; [cbn [app] in H; rewrite H; reflexivity
                     |simpl in *; lia]
  end.

Lemma scanstring_app_bounded (rest : pystr) (n : nat) :
  forall s str r,
    (List.length s <= n)%nat -> scanstring s = Some (str, r) ->
    scanstring (s ++ 10 :: rest) = Some (str, r ++ 10 :: rest).
Proof.
  induction n as [|n IH]; intros s str r Hn H.
  { destruct s; [discriminate|simpl in Hn; lia]. }
  destruct s as [|c t]; [discriminate|].
  cbn [scanstring app] in *.
  destruct (c =? 34); [injection H as <- <-; reflexivity|].
  destruct (c =? 92); [|destruct (c <=? 31);
                        [discriminate|scanstring_step IH]].
  destruct t as [|e t']; [discriminate|]. cbn [app].
  destruct (e =? 117);
    [|destruct (unescape e); [scanstring_step IH|discriminate]].
  destruct t' as [|h1 [|h2 [|h3 [|h4 q]]]]; try discriminate H.
  cbn [app]. destruct (hex4 h1 h2 h3 h4) as [u|]; [|discriminate].
  destruct (high_surrogate u); [|scanstring_step IH].
  destruct q as [|b [|v [|l1 [|l2 [|l3 [|l4 q2]]]]]]; cbn [app].
  - discriminate H.
  - (* one character left: it closes the string *)
    assert (Hb : scanned_cons u (scanstring (b :: 10 :: rest)) =
                 Some (str, r ++ 10 :: rest)) by scanstring_step IH.
    destruct rest as [|l1 [|l2 [|l3 [|l4 rest]]]]; try exact Hb.
    change (10 =? 117) with false. rewrite andb_false_r. exact Hb.
  - assert (Hb : scanned_cons u (scanstring (b :: v :: 10 :: rest)) =
                 Some (str, r ++ 10 :: rest)) by scanstring_step IH.
    destruct rest as [|l2 [|l3 [|l4 rest]]]; try exact Hb.
    destruct ((b =? 92) && (v =? 117)) eqn:E; [|exact Hb].
    apply andb_true_iff in E as [Eb Ev].
    apply N.eqb_eq in Eb, Ev. subst b v. discriminate H.
  - assert (Hb : scanned_cons u (scanstring (b :: v :: l1 :: 10 :: rest)) =
                 Some (str, r ++ 10 :: rest)) by scanstring_step IH.
    destruct rest as [|l3 [|l4 rest]]; try exact Hb.
    destruct ((b =? 92) && (v =? 117)) eqn:E; [|exact Hb].
    apply andb_true_iff in E as [Eb Ev].
    apply N.eqb_eq in Eb, Ev. subst b v. discriminate H.
  - assert (Hb : scanned_cons u
                   (scanstring (b :: v :: l1 :: l2 :: 10 :: rest)) =
                 Some (str, r ++ 10 :: rest)) by scanstring_step IH.
    destruct rest as [|l4 rest]; try exact Hb.
    destruct ((b =? 92) && (v =? 117)) eqn:E; [|exact Hb].
    apply andb_true_iff in E as [Eb Ev].
    apply N.eqb_eq in Eb, Ev. subst b v. discriminate H.
  - assert (Hb : scanned_cons u
                   (scanstring (b :: v :: l1 :: l2 :: l3 :: 10 :: rest)) =
                 Some (str, r ++ 10 :: rest)) by scanstring_step IH.
    destruct ((b =? 92) && (v =? 117)) eqn:E; [|exact Hb].
    apply andb_true_iff in E as [Eb Ev].
    apply N.eqb_eq in Eb, Ev. subst b v. discriminate H.
  - destruct ((b =? 92) && (v =? 117)); [|scanstring_step IH].
    destruct (hex4 l1 l2 l3 l4) as [u2|]; [|discriminate].
    destruct (low_surrogate u2); scanstring_step IH.
Qed.

Lemma scanstring_app (s rest str r : pystr) :
  scanstring s = Some (str, r) ->
  scanstring (s ++ 10 :: rest) = Some (str, r ++ 10 :: rest).
Proof. apply scanstring_app_bounded with (n := List.length s). lia. Qed.

Section DecoderLines.

Context {py : Interpreter}.

Lemma match_number_app (s rest : pystr) (v : pyval) (r : pystr) :
  match_number s = Some (v, r) ->
  match_number (s ++ 10 :: rest) = Some (v, r ++ 10 :: rest).
Proof.
  unfold match_number.
  assert (Hbody : forall (neg : bool) s1,
             match scan_int_part s1 with
             | None => None
             | Some (ip, r1) =>
                 let '(fp, r2) := scan_frac r1 in
                 let '(ex, r3) := scan_exp r2 in
                 match fp, ex with
                 | None, None =>
                     if too_many_digits ip then None
                     else
                       Some (PInt (if neg then (- digits_value ip)%Z
                                   else digits_value ip), r3)
                 | _, _ =>
                     let fd := match fp with Some f => f | None => [] end in
                     let e := match ex with Some e => e | None => 0%Z end in
                     Some (PFloat (float_of_decimal neg
                                     (digits_value (ip ++ fd))
                                     (e - Z.of_nat (List.length fd))%Z), r3)
                 end
             end = Some (v, r) ->
             match scan_int_part (s1 ++ 10 :: rest) with
             | None => None
             | Some (ip, r1) =>
                 let '(fp, r2) := scan_frac r1 in
                 let '(ex, r3) := scan_exp r2 in
                 match fp, ex with
                 | None, None =>
                     if too_many_digits ip then None
                     else
                       Some (PInt (if neg then (- digits_value ip)%Z
                                   else digits_value ip), r3)
                 | _, _ =>
                     let fd := match fp with Some f => f | None => [] end in
                     let e := match ex with Some e => e | None => 0%Z end in
                     Some (PFloat (float_of_decimal neg
                                     (digits_value (ip ++ fd))
                                     (e - Z.of_nat (List.length fd))%Z), r3)
                 end
             end = Some (v, r ++ 10 :: rest)).
  { intros neg s1.
    destruct (scan_int_part s1) as [[ip r1]|] eqn:E1; [|discriminate].
    rewrite (scan_int_part_app _ rest _ _ E1).
    destruct (scan_frac r1) as [fp r2] eqn:E2.
    rewrite (scan_frac_app _ rest _ _ E2).
    destruct (scan_exp r2) as [ex r3] eqn:E3.
    rewrite (scan_exp_app _ rest _ _ E3).
    destruct fp, ex; try destruct (too_many_digits ip); intros H;
      try discriminate H; injection H as <- <-; reflexivity. }
  destruct s as [|c t]; [apply (Hbody false [])|]. cbn [app].
  destruct (c =? 45); [apply (Hbody true)|apply (Hbody false (c :: t))].
Qed.

Lemma parse_elements_nil (fuel depth : nat) (acc : list pyval) :
  decided (parse_elements fuel depth [] acc) = false.
Proof. destruct fuel as [|[|f]]; reflexivity. Qed.

Lemma parse_members_nil (fuel depth : nat) (acc : pydict) :
  decided (parse_members fuel depth [] acc) = false.
Proof. destruct fuel; reflexivity. Qed.

Lemma scan_once_nil (fuel depth : nat) :
  decided (scan_once fuel depth []) = false.
Proof. destruct fuel; reflexivity. Qed.

Ltac literal_step c t rest lit :=
  let E := fresh "Elit" in
  let E1 := fresh "Eapp" in
  let E2 := fresh "Eskip" in
  destruct (startswith (c :: t) lit) eqn:E;
  [destruct (startswith_app (c :: t) (10 :: rest) lit E) as [E1 E2];
   rewrite E1; intros _; cbn [extend]; f_equal; exact E2
  |rewrite (startswith_line_feed (c :: t) rest lit) by
     (first [exact E
            |intros Hin; repeat destruct Hin as [Hin|Hin];
             try discriminate Hin; exact Hin])].

(** With a line feed and more text after it, a scan that was decided is
    decided alike. *)
Lemma scan_line_feed (rest : pystr) (fuel : nat) :
  (forall depth s,
     decided (scan_once fuel depth s) = true ->
     scan_once fuel depth (s ++ 10 :: rest) =
     extend (scan_once fuel depth s) (10 :: rest)) /\
  (forall depth s acc,
     decided (parse_elements fuel depth s acc) = true ->
     parse_elements fuel depth (s ++ 10 :: rest) acc =
     extend (parse_elements fuel depth s acc) (10 :: rest)) /\
  (forall depth s acc,
     decided (parse_members fuel depth s acc) = true ->
     parse_members fuel depth (s ++ 10 :: rest) acc =
     extend (parse_members fuel depth s acc) (10 :: rest)).
Proof.
  induction fuel as [|f (IHs & IHe & IHm)];
    [repeat split; intros; discriminate|].
  split; [|split].
  - (* scan_once *)
    intros depth [|c t]; [discriminate|]. cbn [scan_once app].
    destruct (c =? 34).
    { destruct (scanstring t) as [[str r]|] eqn:E; [|discriminate].
      now rewrite (scanstring_app _ rest _ _ E). }
    destruct (c =? 123).
    { destruct depth as [|d]; [reflexivity|].
      destruct (skip_ws t) as [|c1 r1] eqn:E; [discriminate|].
      rewrite (skip_ws_app _ (10 :: rest) _ _ E).
      destruct (c1 =? 125); [reflexivity|]. apply (IHm d (c1 :: r1)). }
    destruct (c =? 91).
    { destruct depth as [|d]; [reflexivity|].
      destruct (skip_ws t) as [|c1 r1] eqn:E; [discriminate|].
      rewrite (skip_ws_app _ (10 :: rest) _ _ E).
      destruct (c1 =? 93); [reflexivity|]. apply (IHe d (c1 :: r1)). }
    change (c :: t ++ 10 :: rest) with ((c :: t) ++ 10 :: rest).
    literal_step c t rest (U "null"). literal_step c t rest (U "true").
    literal_step c t rest (U "false"). literal_step c t rest (U "NaN").
    literal_step c t rest (U "Infinity").
    literal_step c t rest (U "-Infinity").
    destruct (match_number (c :: t)) as [[v r]|] eqn:E; [|discriminate].
    now rewrite (match_number_app _ rest _ _ E).
  - (* parse_elements *)
    intros depth s acc. cbn [parse_elements].
    pose proof (IHs depth s) as Hs.
    destruct (scan_once f depth s) as [v r| | |];
      try discriminate; rewrite (Hs eq_refl); cbn [extend];
      [|reflexivity].
    destruct (skip_ws r) as [|c r1] eqn:E; [discriminate|].
    rewrite (skip_ws_app _ (10 :: rest) _ _ E).
    destruct (c =? 93); [reflexivity|].
    destruct (c =? 44); [|discriminate].
    destruct (skip_ws r1) as [|c' r'] eqn:E1.
    { intros H. rewrite parse_elements_nil in H. discriminate H. }
    rewrite (skip_ws_app _ (10 :: rest) _ _ E1).
    apply (IHe depth (c' :: r')).
  - (* parse_members *)
    intros depth [|q t] acc; [discriminate|]. cbn [parse_members app].
    destruct (q =? 34); [|discriminate].
    destruct (scanstring t) as [[k r]|] eqn:Ek; [|discriminate].
    rewrite (scanstring_app _ rest _ _ Ek).
    destruct (skip_ws r) as [|colon r1] eqn:E; [discriminate|].
    rewrite (skip_ws_app _ (10 :: rest) _ _ E).
    destruct (colon =? 58); [|discriminate].
    destruct (skip_ws r1) as [|c1 r1'] eqn:E1.
    { intros H. exfalso. revert H.
      destruct (scan_once f depth []) eqn:E0; try discriminate;
        pose proof (scan_once_nil f depth) as Hn; rewrite E0 in Hn;
        discriminate Hn. }
    rewrite (skip_ws_app _ (10 :: rest) _ _ E1).
    pose proof (IHs depth (c1 :: r1')) as Hs. cbn [app] in Hs.
    destruct (scan_once f depth (c1 :: r1')) as [v r2| | |];
      try discriminate; rewrite (Hs eq_refl); cbn [extend];
      [|reflexivity].
    destruct (skip_ws r2) as [|c r3] eqn:E2; [discriminate|].
    rewrite (skip_ws_app _ (10 :: rest) _ _ E2).
    destruct (c =? 125); [reflexivity|].
    destruct (c =? 44); [|discriminate].
    destruct (skip_ws r3) as [|c' r'] eqn:E3.
    { intros H. rewrite parse_members_nil in H. discriminate H. }
    rewrite (skip_ws_app _ (10 :: rest) _ _ E3).
    apply (IHm depth (c' :: r')).
Qed.

(** A scan that did not use up its budget gives the same with a larger
    one. *)
Lemma scan_more_fuel (fuel : nat) :
  forall fuel', (fuel <= fuel')%nat ->
    (forall depth s,
       scan_once fuel depth s <> Exhausted ->
       scan_once fuel' depth s = scan_once fuel depth s) /\
    (forall depth s acc,
       parse_elements fuel depth s acc <> Exhausted ->
       parse_elements fuel' depth s acc = parse_elements fuel depth s acc) /\
    (forall depth s acc,
       parse_members fuel depth s acc <> Exhausted ->
       parse_members fuel' depth s acc = parse_members fuel depth s acc).
Proof.
  induction fuel as [|f IH]; intros fuel' Hle.
  { repeat split; intros; exfalso; auto. }
  destruct fuel' as [|f']; [lia|].
  destruct (IH f' ltac:(lia)) as (IHs & IHe & IHm).
  split; [|split].
  - intros depth [|c t]; [reflexivity|]. cbn [scan_once].
    destruct (c =? 34); [reflexivity|].
    destruct (c =? 123).
    { destruct depth as [|d]; [reflexivity|].
      destruct (skip_ws t) as [|c1 r1]; [reflexivity|].
      destruct (c1 =? 125); [reflexivity|]. apply IHm. }
    destruct (c =? 91).
    { destruct depth as [|d]; [reflexivity|].
      destruct (skip_ws t) as [|c1 r1]; [reflexivity|].
      destruct (c1 =? 93); [reflexivity|]. apply IHe. }
    reflexivity.
  - intros depth s acc. cbn [parse_elements].
    pose proof (IHs depth s) as Hs.
    destruct (scan_once f depth s) as [v r| | |]; intros H;
      try (rewrite Hs by discriminate; reflexivity);
      [|exfalso; now apply H].
    rewrite Hs by discriminate.
    destruct (skip_ws r) as [|c r1]; [reflexivity|].
    destruct (c =? 93); [reflexivity|].
    destruct (c =? 44); [|reflexivity]. now apply IHe.
  - intros depth [|q t] acc; [reflexivity|]. cbn [parse_members].
    destruct (q =? 34); [|reflexivity].
    destruct (scanstring t) as [[k r]|]; [|reflexivity].
    destruct (skip_ws r) as [|colon r1]; [reflexivity|].
    destruct (colon =? 58); [|reflexivity].
    pose proof (IHs depth (skip_ws r1)) as Hs.
    destruct (scan_once f depth (skip_ws r1)) as [v r2| | |]; intros H;
      try (rewrite Hs by discriminate; reflexivity);
      [|exfalso; now apply H].
    rewrite Hs by discriminate.
    destruct (skip_ws r2) as [|c r3]; [reflexivity|].
    destruct (c =? 125); [reflexivity|].
    destruct (c =? 44); [|reflexivity]. now apply IHm.
Qed.

Lemma first_line_split (s : pystr) :
  s = first_line s \/ exists rest, s = first_line s ++ 10 :: rest.
Proof.
  induction s as [|c t IH]; [now left|]. cbn [first_line].
  destruct (N.eqb_spec c 10) as [->|_]; [right; now exists t|].
  destruct IH as [IH|[rest IH]].
  - left. now rewrite <- IH.
  - right. exists rest. cbn [app]. now rewrite <- IH.
Qed.

(** The whole text against its first line: when the first line decodes, or
    when it is nested too deep, the scan of the whole text is decided in the
    same way. *)
Lemma scan_first_line (p rest : pystr) :
  decided (scan_once (S (2 * List.length p)) max_depth (skip_ws p)) = true ->
  scan_once (S (2 * List.length (p ++ 10 :: rest))) max_depth
            (skip_ws (p ++ 10 :: rest)) =
  extend (scan_once (S (2 * List.length p)) max_depth (skip_ws p))
         (10 :: rest).
Proof.
  intros Hd.
  destruct (skip_ws p) as [|c s] eqn:E.
  { rewrite scan_once_nil in Hd. discriminate Hd. }
  rewrite (skip_ws_app _ (10 :: rest) _ _ E).
  destruct (scan_line_feed rest (S (2 * List.length p))) as [Hline _].
  specialize (Hline max_depth (c :: s) Hd). cbn [app] in Hline.
  rewrite <- Hline.
  destruct (scan_more_fuel (S (2 * List.length p))
              (S (2 * List.length (p ++ 10 :: rest)))) as [Hfuel _].
  { rewrite length_app. lia. }
  apply Hfuel. rewrite Hline.
  destruct (scan_once _ _ (c :: s)); try discriminate Hd; discriminate.
Qed.

(** When the first line of a text decodes, the whole text is not nested too
    deep: if it fails to decode, it fails with [ValueError]. *)
Lemma first_line_decodes (raw : pystr) (e : exn) (v : pyval) :
  json_loads (first_line raw) = Ok v ->
  json_loads raw = Raise e -> e = ValueError.
Proof.
  destruct (first_line_split raw) as [<-|[rest Hraw]]; [congruence|].
  intros Hline. rewrite Hraw. unfold json_loads in *.
  destruct (startswith (first_line raw) [65279]); [discriminate Hline|].
  destruct (startswith _ [65279]); [congruence|].
  destruct (scan_once _ _ (skip_ws (first_line raw))) as [v' r| | |] eqn:E;
    try discriminate Hline.
  rewrite scan_first_line by (rewrite E; reflexivity). rewrite E.
  cbn [extend]. destruct (skip_ws (r ++ 10 :: rest)); congruence.
Qed.


End DecoderLines.

(** A text nested one deeper than the interpreter allows. *)
Lemma scan_too_deep {py : Interpreter} (depth : nat) :
  forall fuel rest,
    (2 * depth < fuel)%nat ->
    scan_once fuel depth (brackets (S depth) ++ rest) = TooDeep.
Proof.
  induction depth as [|d IH]; intros fuel rest Hf.
  - destruct fuel as [|f]; [lia|]. reflexivity.
  - destruct fuel as [|[|f]]; try lia.
    change (brackets (S (S d)) ++ rest)
      with (91 :: 91 :: brackets d ++ rest).
    cbn [scan_once]. change (91 =? 34) with false.
    change (91 =? 123) with false. change (91 =? 91) with true.
    cbn iota. change (skip_ws (91 :: brackets d ++ rest))
      with (91 :: brackets d ++ rest).
    change (91 =? 93) with false. cbn iota. cbn [parse_elements].
    change (91 :: brackets d ++ rest) with (brackets (S d) ++ rest).
    rewrite IH by lia. reflexivity.
Qed.

(** Whatever the interpreter's limit, some text is nested too deep for the
    decoder. *)
Lemma json_loads_too_deep {py : Interpreter} :
  json_loads (brackets (S max_depth)) = Raise RecursionError.
Proof.
  unfold json_loads.
  change (startswith (brackets (S max_depth)) [65279]) with false.
  change (skip_ws (brackets (S max_depth))) with (brackets (S max_depth)).
  rewrite <- (app_nil_r (brackets (S max_depth))) at 2.
  rewrite scan_too_deep; [reflexivity|].
  unfold brackets. rewrite repeat_length. lia.
Qed.

Local Close Scope N_scope.

(** C4: a text that fails to decode as a whole, starts with an opening brace
    and whose first line decodes: [run_snippet] returns the value of the
    first line.  The whole text then fails with [ValueError], whatever the
    limits of the interpreter ([first_line_decodes]). *)
Theorem parseRun_first_line {py : Interpreter}
                            (raw : pystr) (e : exn) (v : pyval) :
  json_loads raw = Raise e ->
  startswith raw (U "{") = true ->
  json_loads (first_line raw) = Ok v ->
  parseRun (Some raw) = Ok v.
Proof.
  intros Hwhole Hbrace Hline.
  rewrite (first_line_decodes raw e v Hline Hwhole) in Hwhole.
  destruct raw as [|c o]; [discriminate Hbrace|].
  unfold parseRun. rewrite Hwhole, Hbrace, Hline. reflexivity.
Qed.

Lemma parseRun_first_line_witness :
  parseRun (py := cpython) (Some leaked_output) =
  Ok (PDict [(U "success", PBool true); (U "output", PStr (U "x"))]).
Proof.
  exact (parseRun_first_line (py := cpython) leaked_output ValueError
           (PDict [(U "success", PBool true); (U "output", PStr (U "x"))])
           eq_refl eq_refl eq_refl).
Defined.




(** ** Sessions *)

Section Sessions.

Context {py : Interpreter}.
Variable World : Type.
Variable popen : list pystr -> World -> popen_result * World.
Variable communicate : option pybytes -> World -> communicate_result * World.
Variable cli_path : pystr.
Variable home_snippets : pystr.


Lemma popens_app (a b : list event) :
  popens (a ++ b) = popens a ++ popens b.
Proof. unfold popens. apply flat_map_app. Qed.

Lemma after_trans (st st1 st2 : state World) (evs1 evs2 : list event) :
  after st st1 evs1 -> after st1 st2 evs2 -> after st st2 (evs1 ++ evs2).
Proof.
  intros [H1 C1] [H2 C2]. split; [|congruence].
  rewrite H2, H1. now rewrite app_assoc.
Qed.

(** [run_temper] never raises; it spawns the tool once, and neither edits
    the buffer nor shows a status message. *)
Lemma run_temper_quiet (args : list pystr) (stdin : option pystr)
                       (st : state World) :
  exists out st' evs,
    run_temper popen communicate cli_path args stdin st = (Ok out, st') /\
    after st st' evs /\
    popens evs = [cli_path :: args] /\
    inserts evs = [] /\ statuses evs = [].
Proof.
  unfold run_temper, bind, os_popen, os_communicate, not_found,
    other_error, emit, ret, bind, after.
  destruct (popen (cli_path :: args) (world st)) as [[| |] w] eqn:Ep;
    cbn [trace snippet_cache world];
    try (do 3 eexists; split; [reflexivity|]; cbn [trace snippet_cache];
         rewrite <- ?app_assoc; repeat split; reflexivity).
  destruct (if truthy_str stdin then _ else _) as [input|];
    cbn [trace snippet_cache world];
    try (do 3 eexists; split; [reflexivity|]; cbn [trace snippet_cache];
         rewrite <- ?app_assoc; repeat split; reflexivity).
  destruct (communicate input w) as [[out err rc|] w'];
    cbn [trace snippet_cache world];
    try (do 3 eexists; split; [reflexivity|]; cbn [trace snippet_cache];
         rewrite <- ?app_assoc; repeat split; reflexivity).
  destruct (negb (rc =? 0)%Z && _);
    [destruct (utf8_decode err)|]; destruct (utf8_decode out);
    cbn [trace snippet_cache world];
    do 3 eexists; (split; [reflexivity|]); cbn [trace snippet_cache];
    rewrite <- ?app_assoc; repeat split; reflexivity.
Qed.

Ltac exists_quiet st evs :=
  do 2 eexists; exists evs; split; [reflexivity|]; repeat split; assumption.

(** [get_snippet_info] raises only when the decoder does, with
    [RecursionError]. *)
Lemma get_snippet_info_quiet (slug : pystr) (language : option pystr)
                             (st : state World) :
  exists r st' evs,
    get_snippet_info popen communicate cli_path slug language st = (r, st') /\
    after st st' evs /\
    popens evs = [info_query cli_path slug language] /\
    inserts evs = [] /\ statuses evs = [].
Proof.
  unfold get_snippet_info, bind.
  destruct (run_temper_quiet
              ([U "info"; slug; U "--json"] ++ language_args language)
              None st) as (out & st' & evs & -> & [Ht Hc] & Hp & Hi & Hs).
  change (popens evs = [info_query cli_path slug language]) in Hp.
  destruct out as [[|c o]|]; [| destruct (json_loads (c :: o)) as [v|[]] |];
    unfold ret, lift; exists_quiet st' evs.
Qed.

Lemma other_than_default_test (language : option pystr) :
  truthy_str language &&
  negb match language with
       | Some l => str_eqb l (U "javascript")
       | None => false
       end = other_than_default language.
Proof. destruct language as [[|c l]|]; reflexivity. Qed.

Lemma nothing_found (r : option pyval) : nothing (Ok r) = negb (found r).
Proof. destruct r; reflexivity. Qed.

(** C6: the detail fetch of an insertion session first queries the tool
    under the active language; it queries once more, under [javascript],
    exactly when the first query returned nothing and there is an active
    language other than [javascript]; these are all the processes it spawns.
    When the last query returned nothing, it ends with the failure status
    and inserts no text. *)
Theorem fetch_and_insert_fallback (language : option pystr) (slug : pystr)
                                  (st : state World) :
  let q1 := get_snippet_info popen communicate cli_path slug language st in
  let retry := nothing (fst q1) && other_than_default language in
  let q2 := get_snippet_info popen communicate cli_path slug (Some javascript) (snd q1) in
  let final := fetch_and_insert popen communicate cli_path language slug st in
  exists evs,
    after st (snd final) evs /\
    popens evs =
      info_query cli_path slug language ::
      (if retry then [info_query cli_path slug (Some javascript)] else []) /\
    (nothing (fst (if retry then q2 else q1)) = true ->
     fst final = Ok tt /\ inserts evs = [] /\
     statuses evs = [U "Failed to fetch snippet: " ++ slug]).
Proof.
  cbv zeta.
  destruct (get_snippet_info_quiet slug language st)
    as (r1 & st1 & evs1 & Hq1 & Hafter1 & Hp1 & Hi1 & Hs1).
  unfold fetch_and_insert, bind.
  rewrite Hq1. cbn [fst snd].
  destruct r1 as [r1|e1];
    [|exists evs1; split; [exact Hafter1|]; split; [exact Hp1|];
      intros H; discriminate H].
  rewrite <- andb_assoc, other_than_default_test.
  rewrite nothing_found.
  assert (Hend : forall (r : option pyval) (st' : state World) evs,
    after st st' evs -> inserts evs = [] -> statuses evs = [] ->
    let final :=
      match r with
      | Some v =>
          if truthy v
          then bind (lift (World := World) (py_get v (U "code") (PStr [])))
                 (fun code =>
                    bind (emit (InsertText code))
                      (fun _ => emit (StatusMessage
                                        (U "Temper: Inserted " ++ slug))))
          else emit (StatusMessage (U "Failed to fetch snippet: " ++ slug))
      | None => emit (StatusMessage (U "Failed to fetch snippet: " ++ slug))
      end st' in
    exists evs',
      after st (snd final) (evs ++ evs') /\ popens evs' = [] /\
      (negb (found r) = true ->
       fst final = Ok tt /\ inserts (evs ++ evs') = [] /\
       statuses (evs ++ evs') = [U "Failed to fetch snippet: " ++ slug])).
  { intros r st' evs Hafter Hi Hs. cbv zeta.
    assert (Hfail :
      exists evs',
        after st (snd (emit (StatusMessage
                               (U "Failed to fetch snippet: " ++ slug)) st'))
              (evs ++ evs') /\ popens evs' = [] /\
        (fst (emit (World := World)
                (StatusMessage (U "Failed to fetch snippet: " ++ slug)) st')
         = Ok tt /\ inserts (evs ++ evs') = [] /\
         statuses (evs ++ evs') = [U "Failed to fetch snippet: " ++ slug])).
    { exists [StatusMessage (U "Failed to fetch snippet: " ++ slug)].
      destruct Hafter as [Ht Hc]. unfold emit, after, inserts, statuses in *.
      cbn [fst snd trace snippet_cache]. rewrite !flat_map_app, Hi, Hs, Ht.
      rewrite app_assoc. repeat split; auto. }
    destruct r as [v|]; cbn [found];
      [destruct (truthy v)|];
      try (destruct Hfail as (evs' & H1 & H2 & H3); exists evs'; now auto).
    unfold bind, lift, emit. destruct Hafter as [Ht Hc].
    destruct (py_get v (U "code") (PStr [])) as [code|e];
      cbn [fst snd trace snippet_cache].
    - exists [InsertText code; StatusMessage (U "Temper: Inserted " ++ slug)].
      unfold after. cbn [trace snippet_cache]. rewrite Ht, <- !app_assoc.
      repeat split; auto; discriminate.
    - exists []. unfold after. rewrite app_nil_r.
      repeat split; auto; discriminate. }
  destruct (negb (found r1) && other_than_default language) eqn:Hretry.
  - destruct (get_snippet_info_quiet slug (Some javascript) st1)
      as (r2 & st2 & evs2 & Hq2 & Hafter2 & Hp2 & Hi2 & Hs2).
    fold javascript. rewrite Hq2. cbn [fst].
    destruct r2 as [r2|e2].
    2:{ exists (evs1 ++ evs2). split; [eapply after_trans; eassumption|].
        split; [now rewrite popens_app, Hp1, Hp2|].
        intros H; discriminate H. }
    destruct (Hend r2 st2 (evs1 ++ evs2)) as (evs' & Ha & Hp & Hf).
    + eapply after_trans; eassumption.
    + unfold inserts in *. now rewrite flat_map_app, Hi1, Hi2.
    + unfold statuses in *. now rewrite flat_map_app, Hs1, Hs2.
    + exists ((evs1 ++ evs2) ++ evs'). split; [exact Ha|]. split.
      * unfold popens in *. now rewrite !flat_map_app, Hp1, Hp2, Hp.
      * intros Hn. apply Hf. rewrite <- nothing_found. exact Hn.
  - unfold ret. destruct (Hend r1 st1 evs1 Hafter1 Hi1 Hs1)
      as (evs' & Ha & Hp & Hf).
    exists (evs1 ++ evs'). split; [exact Ha|]. split.
    + unfold popens in *. now rewrite flat_map_app, Hp1, Hp.
    + intros Hn. apply Hf. rewrite <- nothing_found. exact Hn.
Qed.

(** What holds of [run_temper] when the process spawns and exits: with an
    output that is UTF-8, and an error stream that is UTF-8 whenever it is
    logged, the output is returned decoded and stripped, whatever the exit
    status. *)
Lemma run_temper_returns_stdout
    (args : list pystr) (stdin : option pystr) (input : option pybytes)
    (st : state World) (w w' : World)
    (stdout stderr : pybytes) (returncode : Z) (text : pystr) :
  popen (cli_path :: args) (world st) = (Spawned, w) ->
  (if truthy_str stdin
   then match stdin with
        | Some s => option_map Some (utf8_encode s)
        | None => Some None
        end
   else Some None) = Some input ->
  communicate input w = (Exited stdout stderr returncode, w') ->
  utf8_decode stdout = Some text ->
  (returncode = 0%Z \/ stderr = [] \/ exists log, utf8_decode stderr = Some log)
  ->
  fst (run_temper popen communicate cli_path args stdin st)
  = Ok (Some (strip text)).
Proof.
  intros Hp Hin Hc Hout Herr.
  unfold run_temper, bind, os_popen, os_communicate.
  rewrite Hp. cbn [world]. rewrite Hin. cbn [world]. rewrite Hc.
  rewrite Hout.
  destruct (negb (returncode =? 0)%Z &&
            match stderr with [] => false | _ :: _ => true end) eqn:Hlog;
    [|reflexivity].
  apply andb_true_iff in Hlog as [Hrc Hne].
  destruct Herr as [-> | [-> | [log ->]]]; try discriminate.
  reflexivity.
Qed.

(** The directory falls back to the expanded [~/Snippets] when the tool
    cannot be spawned. *)
Lemma get_snippets_dir_fallback (st : state World) (w : World) :
  (popen [cli_path; U "config"; U "--json"] (world st) = (NotFound, w) \/
   popen [cli_path; U "config"; U "--json"] (world st) = (SpawnFailed, w)) ->
  fst (get_snippets_dir popen communicate cli_path home_snippets st)
  = Ok (PStr home_snippets).
Proof.
  unfold get_snippets_dir, run_temper, bind, os_popen.
  intros [H|H]; rewrite H; reflexivity.
Qed.

(** C10: with the configured directory a string [d], [is_snippet_file]
    returns true exactly for a non-empty path that extends [d] as a string;
    so every non-empty path passes when [d] is empty, which is the case for
    a configuration object without [snippetsDir], and any path that
    continues [d], also into a sibling directory, passes. *)
Theorem is_snippet_file_string_prefix (st : state World) (d : pystr) :
  fst (get_snippets_dir popen communicate cli_path home_snippets st)
  = Ok (PStr d) ->
  (forall file_path,
     exists b,
       fst (is_snippet_file popen communicate cli_path home_snippets
                            file_path st) = Ok b /\
       (b = true <->
        exists p, file_path = Some p /\ p <> [] /\ exists rest, p = d ++ rest))
  /\
  (forall out cfg,
     fst (run_temper popen communicate cli_path [U "config"; U "--json"]
                     None st) = Ok (Some out) ->
     json_loads out = Ok (PDict cfg) ->
     dict_lookup cfg (U "snippetsDir") = None ->
     d = [] /\
     forall p, p <> [] ->
       fst (is_snippet_file popen communicate cli_path home_snippets
                            (Some p) st) = Ok true)
  /\
  (forall rest, d ++ rest <> [] ->
     fst (is_snippet_file popen communicate cli_path home_snippets
                          (Some (d ++ rest)) st) = Ok true).
Proof.
  intros Hdir.
  assert (Hgate : forall c p,
             fst (is_snippet_file popen communicate cli_path home_snippets
                                  (Some (c :: p)) st)
             = Ok (startswith (c :: p) d)).
  { intros c p. unfold is_snippet_file, bind.
    destruct (get_snippets_dir popen communicate cli_path home_snippets st)
      as [r st']. cbn [fst] in Hdir. subst r. reflexivity. }
  assert (Hrest : forall rest, d ++ rest <> [] ->
             fst (is_snippet_file popen communicate cli_path home_snippets
                                  (Some (d ++ rest)) st) = Ok true).
  { intros rest Hne. destruct (d ++ rest) as [|c p] eqn:E; [contradiction|].
    rewrite Hgate, <- E. f_equal. apply startswith_spec. eauto. }
  split; [|split].
  - intros [[|c p]|].
    + exists false. split; [reflexivity|]. split; [discriminate|].
      intros (p & Hp & Hne & _). injection Hp as <-. contradiction.
    + exists (startswith (c :: p) d). split; [apply Hgate|].
      rewrite startswith_spec. split.
      * intros Hrest'. exists (c :: p). repeat split; [discriminate|assumption].
      * intros (p' & Hp & _ & Hrest'). injection Hp as <-. exact Hrest'.
    + exists false. split; [reflexivity|]. split; [discriminate|].
      intros (p & Hp & _). discriminate Hp.
  - intros out cfg Hrun Hload Hmiss.
    assert (Hd : d = []).
    { unfold get_snippets_dir, bind in Hdir.
      destruct (run_temper popen communicate cli_path
                           [U "config"; U "--json"] None st) as [r st'].
      cbn [fst] in Hrun. subst r.
      destruct out as [|c o];
        [rewrite json_loads_empty in Hload; discriminate|].
      rewrite Hload in Hdir. unfold lift, py_get in Hdir.
      rewrite Hmiss in Hdir. cbn [fst] in Hdir. congruence. }
    split; [exact Hd|]. intros p Hne. subst d. apply (Hrest p Hne).
  - exact Hrest.
Qed.

End Sessions.

Lemma fetch_and_insert_fallback_witness :
  let final :=
    fetch_and_insert (py := cpython) scripted_popen
                     (scripted_communicate javascript_only)
                     (U "temper") (Some (U "python")) (U "x")
                     (start empty_cache) in
  popens (trace (snd final)) =
    [info_query (U "temper") (U "x") (Some (U "python"));
     info_query (U "temper") (U "x") (Some javascript)] /\
  inserts (trace (snd final)) = [PStr (U "slugify(s)")].
Proof.
  cbv zeta. split; [|reflexivity].
  destruct (fetch_and_insert_fallback (py := cpython) (list pystr)
              scripted_popen
              (scripted_communicate javascript_only) (U "temper")
              (Some (U "python")) (U "x") (start empty_cache))
    as (evs & [Ht _] & Hp & _).
  rewrite Ht. exact Hp.
Defined.
(** ** The selection list *)

Lemma slug_keys_records_only (items : list pyval) (ks : list hkey) :
  slug_keys items = Ok ks -> Forall is_record items.
Proof.
  revert ks. induction items as [|r items IH]; intros ks H; [constructor|].
  cbn [slug_keys] in H. destruct r; try discriminate H.
  constructor; [eexists; reflexivity|].
  unfold rbind in H. cbn [py_get] in H.
  destruct (py_hash _); [|discriminate].
  destruct (slug_keys items) eqn:E; [|discriminate].
  eapply IH. reflexivity.
Qed.

Lemma merge_cloud_records_only (ks : list hkey) (items : list pyval) :
  forall merged out,
    merge_cloud ks items merged = Ok out ->
    Forall is_record merged -> Forall is_record out.
Proof.
  induction items as [|r items IH]; intros merged out H Hm.
  - injection H as <-. exact Hm.
  - cbn [merge_cloud] in H. destruct r; try discriminate H.
    unfold rbind in H. cbn [py_get] in H.
    destruct (py_hash _); [|discriminate].
    apply IH in H; [exact H|].
    destruct (set_mem _ _); [exact Hm|].
    apply Forall_app. split; [exact Hm|].
    constructor; [eexists; reflexivity|constructor].
Qed.

Lemma get_all_snippets_records_only (c : cache) (all : list pyval) :
  get_all_snippets c = Ok all -> Forall is_record all.
Proof.
  unfold get_all_snippets, rbind. intros H.
  destruct (py_iter (local c)) as [litems|]; [|discriminate].
  destruct (slug_keys litems) as [ks|] eqn:Ek; [|discriminate].
  destruct (py_iter (cloud c)) as [citems|]; [|discriminate].
  eapply merge_cloud_records_only; [exact H|].
  eapply slug_keys_records_only. exact Ek.
Qed.

Lemma format_records (results : list pyval) :
  Forall is_record results ->
  exists items, map_result format_snippet_item results = Ok items /\
                List.length items = List.length results.
Proof.
  induction 1 as [|r results [d ->] _ (items & IH & Hlen)].
  - exists []. split; reflexivity.
  - eexists (_ :: items). cbn [map_result]. rewrite IH.
    split; [reflexivity|]. simpl. now rewrite Hlen.
Qed.

(** C7: when the merged view is not empty and filtering it by the active
    language tag yields an empty sequence, the panel shows the full merged
    view; and whenever a panel is shown, its list is not empty (an empty
    merged view shows no panel at all). *)
Theorem show_panel_filter_degradation
    (World : Type) (language : option pystr) (st : state World)
    (all : list pyval) :
  get_all_snippets (snippet_cache st) = Ok all ->
  (all <> [] ->
   forall tag, language = Some tag -> tag <> [] ->
     filter_language tag all = Ok [] ->
     exists items,
       map_result format_snippet_item all = Ok items /\
       List.length items = List.length all /\
       show_panel language st = (Ok (Some all), presents st items)) /\
  (forall results st',
     show_panel language st = (Ok (Some results), st') ->
     results <> [] /\ all <> []) /\
  (all = [] -> fst (show_panel language st) = Ok None).
Proof.
  intros Hall. pose proof (get_all_snippets_records_only _ _ Hall) as Hrec.
  unfold show_panel, bind, read_cache, lift. rewrite Hall.
  split; [|split].
  - intros Hne tag -> Htag Hfilter.
    destruct (format_records all Hrec) as (items & Hitems & Hlen).
    exists items. split; [exact Hitems|]. split; [exact Hlen|].
    destruct all as [|a all']; [contradiction|].
    destruct tag as [|ch l]; [contradiction|].
    rewrite Hfilter. unfold ret. rewrite Hitems.
    unfold emit, presents. cbn [trace world snippet_cache].
    now rewrite <- app_assoc.
  - intros results st'. destruct all as [|a all'].
    + unfold emit, ret. intros H. discriminate H.
    + intros H. split; [|discriminate].
      destruct language as [[|ch l]|]; unfold ret in H.
      * destruct (map_result format_snippet_item (a :: all'));
          [|discriminate H].
        unfold emit in H. injection H as <- _. discriminate.
      * destruct (filter_language (ch :: l) (a :: all')) as [[|f fs]|];
          [| |discriminate H];
          match type of H with
          | context [map_result format_snippet_item ?x] =>
              destruct (map_result format_snippet_item x); [|discriminate H]
          end;
          unfold emit in H; injection H as <- _; discriminate.
      * destruct (map_result format_snippet_item (a :: all'));
          [|discriminate H].
        unfold emit in H. injection H as <- _. discriminate.
  - intros ->. reflexivity.
Qed.

Lemma show_panel_filter_degradation_witness :
  fst (show_panel (Some (U "python"))
                  (start (catalog sample_local sample_cloud false))) =
  Ok (Some (map PDict
              (sample_local ++ [record "camel-case" "Camel case" false]))).
Proof.
  destruct (show_panel_filter_degradation (list pystr) (Some (U "python"))
              (start (catalog sample_local sample_cloud false))
              (map PDict
                 (sample_local ++ [record "camel-case" "Camel case" false]))
              eq_refl) as [H _].
  destruct (H ltac:(discriminate) (U "python") eq_refl ltac:(discriminate)
              eq_refl) as (items & _ & _ & Hshow).
  rewrite Hshow. reflexivity.
Defined.

(** ** The gate of the run-current-file command *)

(** C8 fails on the code: with [/home/u/Snippets] configured, a file of the
    sibling directory [/home/u/Snippets2] does not reside under the snippets
    directory and still passes the gate, since the test is a string
    prefix. *)
Theorem is_snippet_file_accepts_sibling :
  fst (is_snippet_file (py := cpython) scripted_popen
                       (scripted_communicate configured)
                       (U "temper") (U "/home/u/Snippets")
                       (Some (U "/home/u/Snippets2/x.js"))
                       (start empty_cache)) = Ok true /\
  resides_under (U "/home/u/Snippets") (U "/home/u/Snippets2/x.js") = false.
Proof. split; reflexivity. Qed.

Lemma is_snippet_file_string_prefix_witness :
  fst (is_snippet_file (py := cpython) scripted_popen
                       (scripted_communicate configured)
                       (U "temper") (U "/home/u/Snippets")
                       (Some (U "/home/u/Snippets-old/x.js"))
                       (start empty_cache)) = Ok true /\
  fst (is_snippet_file (py := cpython) scripted_popen
                       (scripted_communicate (prints (U "{}")))
                       (U "temper") (U "/home/u/Snippets")
                       (Some (U "/etc/passwd"))
                       (start empty_cache)) = Ok true.
Proof.
  split.
  - apply (proj2 (proj2 (is_snippet_file_string_prefix
                           (py := cpython) (list pystr) scripted_popen
                           (scripted_communicate configured) (U "temper")
                           (U "/home/u/Snippets") (start empty_cache)
                           (U "/home/u/Snippets") eq_refl))
                 (U "-old/x.js")).
    discriminate.
  - destruct (proj1 (proj2 (is_snippet_file_string_prefix
                              (py := cpython) (list pystr) scripted_popen
                              (scripted_communicate (prints (U "{}")))
                              (U "temper") (U "/home/u/Snippets")
                              (start empty_cache) [] eq_refl))
                    (U "{}") [] eq_refl eq_refl eq_refl) as [_ H].
    apply H. discriminate.
Defined.

(** ** The invoker *)

(** C9 fails on the code: the process spawns, prints [ok] and exits with
    status 1 and an error stream that is not UTF-8; decoding the error
    stream for the log raises inside the [try], the catch-all clause shows
    the error dialog, and [run_temper] returns [None] instead of [ok].  With
    an error stream that is UTF-8 the same exit is logged and [ok] is
    returned. *)
Theorem run_temper_undecodable_stderr :
  let '(r, st) :=
    run_temper scripted_popen (scripted_communicate noisy) (U "temper")
               [U "run"; U "x"; U "--json"] None (start empty_cache) in
  let '(r', st') :=
    run_temper scripted_popen
               (scripted_communicate (fun _ => (U "ok", U "warn", 1%Z)))
               (U "temper") [U "run"; U "x"; U "--json"] None
               (start empty_cache) in
  r = Ok None /\
  trace st = [Popen [U "temper"; U "run"; U "x"; U "--json"];
              Communicate None; ErrorMessage false] /\
  utf8_decode (U "ok") = Some (U "ok") /\ utf8_decode [255%N] = None /\
  r' = Ok (Some (U "ok")) /\
  trace st' = [Popen [U "temper"; U "run"; U "x"; U "--json"];
               Communicate None; Print (U "Temper error: warn")].
Proof. vm_compute. repeat split. Qed.

Lemma run_temper_returns_stdout_witness :
  fst (run_temper scripted_popen (scripted_communicate warns) (U "temper")
                  [U "list"; U "--json"] None (start empty_cache))
  = Ok (Some (U "ok")).
Proof.
  apply (run_temper_returns_stdout (list pystr) scripted_popen
           (scripted_communicate warns) (U "temper") [U "list"; U "--json"]
           None None (start empty_cache)
           [U "temper"; U "list"; U "--json"]
           [U "temper"; U "list"; U "--json"]
           (U "  ok" ++ [10%N]) (U "warn") 1%Z (U "  ok" ++ [10%N]));
    try reflexivity.
  right. right. exists (U "warn"). reflexivity.
Defined.

Lemma get_snippets_dir_fallback_witness :
  fst (get_snippets_dir (py := cpython) missing_popen
                        (scripted_communicate configured)
                        (U "temper") (U "/home/u/Snippets")
                        (start empty_cache))
  = Ok (PStr (U "/home/u/Snippets")).
Proof.
  apply (get_snippets_dir_fallback (py := cpython) (list pystr)
           missing_popen
           (scripted_communicate configured) (U "temper")
           (U "/home/u/Snippets") (start empty_cache) []).
  left. reflexivity.
Defined.

Lemma parseList_records_only_witness :
  exists items,
    py_iter (PList (map PDict (dup_records true))) = Ok items /\
    Forall is_record items.
Proof.
  exact (parseList_records_only (py := cpython) true (Some dup_payload)
           (PList (map PDict (dup_records true))) eq_refl).
Defined.

(** ** Syntax names and file paths *)

Lemma str_contains_spec (s p : pystr) :
  str_contains s p = true <-> exists a b, s = a ++ p ++ b.
Proof.
  split.
  - induction s as [|c s IH]; cbn [str_contains]; rewrite orb_true_iff.
    + intros [H|H]; [|discriminate].
      apply startswith_spec in H as [rest ->]. now exists [], rest.
    + intros [H|H].
      * apply startswith_spec in H as [rest ->]. now exists [], rest.
      * destruct (IH H) as (a & b & ->). now exists (c :: a), b.
  - intros (a & b & ->). induction a as [|c a IH].
    + destruct (p ++ b) as [|x l] eqn:E; cbn [str_contains app];
        rewrite <- ?E; apply orb_true_iff; left;
        apply startswith_spec; eauto.
    + cbn [app str_contains]. rewrite IH. apply orb_true_r.
Qed.

Lemma str_contains_inner (s x y z : pystr) :
  str_contains s (x ++ y ++ z) = true -> str_contains s y = true.
Proof.
  rewrite !str_contains_spec. intros (a & b & ->).
  exists (a ++ x), (z ++ b). now rewrite <- !app_assoc.
Qed.

(** The language of a syntax name is decided by eight of the ten keys of the
    map, in four ranks: a name with [javascript], [js], [typescript] or [ts]
    is javascript whatever else it holds; then come [python], [ruby] and
    [php]; then [sh], for bash; the keys [shell] and [bash] never decide,
    since a name that holds one of them holds [sh].  A name with none of the
    eight has no language. *)
Theorem get_temper_language_decides (lower : pystr -> pystr)
                                    (syntax : pystr) :
  get_temper_language lower syntax =
  if syntax_has lower syntax "javascript" || syntax_has lower syntax "js" ||
     syntax_has lower syntax "typescript" || syntax_has lower syntax "ts"
  then Some (U "javascript")
  else if syntax_has lower syntax "python" then Some (U "python")
  else if syntax_has lower syntax "ruby" then Some (U "ruby")
  else if syntax_has lower syntax "php" then Some (U "php")
  else if syntax_has lower syntax "sh" then Some (U "bash")
  else None.
Proof.
  cbv zeta. unfold get_temper_language, LANGUAGE_MAP, syntax_has.
  set (name := lower (basename syntax)). cbn [first_match].
  destruct (str_contains name (U "javascript")); [reflexivity|].
  destruct (str_contains name (U "js")); [reflexivity|].
  destruct (str_contains name (U "typescript")); [reflexivity|].
  destruct (str_contains name (U "ts")); [reflexivity|].
  destruct (str_contains name (U "python")); [reflexivity|].
  destruct (str_contains name (U "ruby")); [reflexivity|].
  destruct (str_contains name (U "php")); [reflexivity|].
  cbn [orb].
  destruct (str_contains name (U "shell")) eqn:Hshell.
  { now rewrite (str_contains_inner name [] (U "sh") (U "ell") Hshell). }
  destruct (str_contains name (U "bash")) eqn:Hbash.
  { now rewrite (str_contains_inner name (U "ba") (U "sh") [] Hbash). }
  destruct (str_contains name (U "sh")); reflexivity.
Qed.

Lemma after_last_absent (ch : N) (p : pystr) :
  ~ In ch p -> after_last ch p = O.
Proof.
  induction p as [|c t IH]; [reflexivity|]. intros H. cbn [after_last].
  rewrite IH by (intros Hin; apply H; now right).
  destruct (N.eqb c ch) eqn:E; [|reflexivity].
  apply N.eqb_eq in E. exfalso. apply H. now left.
Qed.

Lemma after_last_app_absent (ch : N) (p rest : pystr) :
  ~ In ch rest -> after_last ch (p ++ rest) = after_last ch p.
Proof.
  intros H. induction p as [|c t IH]; cbn [app after_last].
  - now apply after_last_absent.
  - now rewrite IH.
Qed.

Lemma after_last_end (ch : N) (p : pystr) :
  after_last ch (p ++ [ch]) = S (List.length p).
Proof.
  induction p as [|c t IH]; cbn [app after_last List.length].
  - now rewrite N.eqb_refl.
  - now rewrite IH.
Qed.

Lemma skipn_all_app (p rest : pystr) : skipn (List.length p) (p ++ rest) = rest.
Proof. induction p; [reflexivity|assumption]. Qed.

Lemma firstn_all_app (p rest : pystr) :
  firstn (List.length p) (p ++ rest) = p.
Proof. induction p as [|c t IH]; [reflexivity|]. simpl. now rewrite IH. Qed.

(** The base name of a path whose last part has no slash. *)
Lemma basename_last_part (prefix rest : pystr) :
  prefix = [] \/ (exists d, prefix = d ++ [47%N]) ->
  ~ In 47%N rest ->
  basename (prefix ++ rest) = rest.
Proof.
  intros Hp Hrest. unfold basename.
  rewrite (after_last_app_absent _ _ _ Hrest).
  destruct Hp as [-> | [d ->]]; [reflexivity|].
  rewrite after_last_end.
  replace (S (List.length d)) with (List.length (d ++ [47%N]))
    by (rewrite length_app; simpl; lia).
  apply skipn_all_app.
Qed.

Lemma basename_no_slash (p : pystr) : ~ In 47%N (basename p).
Proof.
  unfold basename. induction p as [|c t IH]; [intros []|].
  cbn [after_last]. destruct (after_last 47 t) as [|n].
  - destruct (N.eqb c 47) eqn:E; [exact IH|].
    intros [H|H]; [|exact (IH H)].
    apply N.eqb_neq in E. contradiction.
  - exact IH.
Qed.

Lemma basename_empty (p : pystr) :
  basename p = [] <-> p = [] \/ exists d, p = d ++ [47%N].
Proof.
  split.
  - unfold basename. induction p as [|c t IH]; [now left|]. right.
    cbn [after_last] in H. destruct (after_last 47 t) as [|n] eqn:E.
    + destruct (N.eqb c 47) eqn:Ec; [|discriminate H].
      apply N.eqb_eq in Ec. subst c. cbn [skipn] in H. subst t. now exists [].
    + cbn [skipn] in H. destruct (IH H) as [-> | [d ->]]; [discriminate E|].
      now exists (c :: d).
  - intros [-> | [d ->]]; [reflexivity|].
    rewrite <- (app_nil_r (d ++ [47%N])).
    apply (basename_last_part (d ++ [47%N]) []); [eauto|intros []].
Qed.

Lemma map_case_ascii (f : N -> N) (s : pystr) :
  (forall c, (c < 128)%N -> (f c < 128)%N) ->
  is_ascii s -> is_ascii (map f s).
Proof.
  intros Hf. induction 1; constructor; auto.
Qed.

Lemma after_last_map (f : N -> N) (ch : N) (s : pystr) :
  (forall c, N.eqb (f c) ch = N.eqb c ch) ->
  after_last ch (map f s) = after_last ch s.
Proof.
  intros Hf. induction s as [|c t IH]; [reflexivity|].
  cbn [map after_last]. now rewrite IH, Hf.
Qed.

Lemma upper_char_spec (c : N) :
  let u := if N.leb 97 c && N.leb c 122 then (c - 32)%N else c in
  N.eqb u 47 = N.eqb c 47 /\
  ((c < 128)%N -> (u < 128)%N) /\
  (if N.leb 65 u && N.leb u 90 then (u + 32)%N else u) =
  (if N.leb 65 c && N.leb c 90 then (c + 32)%N else c).
Proof.
  cbv zeta.
  destruct (N.leb 97 c) eqn:E1; destruct (N.leb c 122) eqn:E2; cbn [andb];
    try (split; [reflexivity|split; [auto|reflexivity]]).
  apply N.leb_le in E1, E2.
  assert (N.leb 65 (c - 32) = true) as -> by (apply N.leb_le; lia).
  assert (N.leb (c - 32) 90 = true) as -> by (apply N.leb_le; lia).
  assert (N.leb c 90 = false) as -> by (apply N.leb_gt; lia).
  rewrite andb_false_r. cbn [andb].
  split; [|split; [lia|lia]].
  rewrite (proj2 (N.eqb_neq (c - 32) 47)) by lia.
  now rewrite (proj2 (N.eqb_neq c 47)) by lia.
Qed.

(** Only the last part of the syntax path counts, and the case of its ASCII
    letters does not: a syntax file in any directory, with its name in any
    case, has the language of its name. *)
Theorem get_temper_language_directory_and_case
    (lower : pystr -> pystr) (dir name : pystr) :
  (forall s, is_ascii s -> lower s = ascii_lower s) ->
  ~ In 47%N name -> is_ascii name ->
  get_temper_language lower (dir ++ [47%N] ++ name) =
  get_temper_language lower name /\
  get_temper_language lower (dir ++ [47%N] ++ ascii_upper name) =
  get_temper_language lower name.
Proof.
  intros Hlower Hslash Hascii.
  assert (Hbase : forall n, ~ In 47%N n ->
             basename (dir ++ [47%N] ++ n) = n /\ basename n = n).
  { intros n Hn. split.
    - rewrite app_assoc. apply basename_last_part; eauto.
    - apply (basename_last_part [] n); auto. }
  assert (Hup_slash : ~ In 47%N (ascii_upper name)).
  { unfold ascii_upper. intros Hin. apply in_map_iff in Hin as (c & Hc & Hin).
    destruct (upper_char_spec c) as (H47 & _ & _). cbv zeta in H47.
    rewrite Hc, N.eqb_refl in H47. symmetry in H47.
    apply N.eqb_eq in H47. subst c. contradiction. }
  unfold get_temper_language.
  destruct (Hbase name Hslash) as [-> ->].
  destruct (Hbase (ascii_upper name) Hup_slash) as [-> _].
  split; [reflexivity|].
  rewrite (Hlower name Hascii).
  rewrite Hlower.
  - f_equal. unfold ascii_lower, ascii_upper. rewrite map_map.
    apply map_ext. intros c. apply (upper_char_spec c).
  - apply map_case_ascii; [|exact Hascii].
    intros c. apply (upper_char_spec c).
Qed.

Lemma get_temper_language_directory_and_case_witness :
  get_temper_language ascii_lower (U "Packages/JavaScript/JSON.SUBLIME-SYNTAX")
  = Some (U "javascript") /\
  get_temper_language ascii_lower (U "json.sublime-syntax")
  = Some (U "javascript").
Proof.
  assert (H : ~ In 47%N (U "json.sublime-syntax")).
  { intros H. repeat (destruct H as [H|H]; [discriminate H|]). exact H. }
  assert (A : is_ascii (U "json.sublime-syntax"))
    by (repeat constructor).
  destruct (get_temper_language_directory_and_case ascii_lower
              (U "Packages/JavaScript") (U "json.sublime-syntax")
              (fun s _ => eq_refl) H A) as [_ Hcase].
  split; [|reflexivity].
  transitivity (get_temper_language ascii_lower (U "json.sublime-syntax"));
    [exact Hcase|reflexivity].
Defined.

Lemma splitext_root_prefix (p : pystr) : exists rest, p = splitext_root p ++ rest.
Proof.
  unfold splitext_root. destruct (_ && _).
  - eexists. symmetry. apply firstn_skipn.
  - exists []. now rewrite app_nil_r.
Qed.

Lemma splitext_root_empty (p : pystr) :
  ~ In 47%N p -> (splitext_root p = [] <-> p = []).
Proof.
  intros Hp. split; [|intros ->; reflexivity].
  unfold splitext_root. rewrite (after_last_absent _ _ Hp).
  destruct (_ && _) eqn:E; [|auto].
  apply andb_true_iff in E as [_ E]. cbn [skipn] in E.
  rewrite Nat.sub_0_r in E. intros H. rewrite H in E. discriminate E.
Qed.

(** A snippet file gives back its slug: for a file named [slug.ext] in any
    directory (or in none), where the slug has no slash and is not made of
    dots only and the extension has neither dot nor slash,
    [get_slug_from_path] returns the slug, dots inside it included. *)
Theorem get_slug_from_path_round_trip (prefix slug ext : pystr) :
  prefix = [] \/ (exists d, prefix = d ++ [47%N]) ->
  ~ In 47%N slug ->
  existsb (fun c => negb (N.eqb c 46)) slug = true ->
  ~ In 46%N ext -> ~ In 47%N ext ->
  get_slug_from_path (Some (prefix ++ slug ++ [46%N] ++ ext)) = Some slug.
Proof.
  intros Hprefix Hslug Hdots Hext_dot Hext_slash.
  assert (Hname : ~ In 47%N (slug ++ [46%N] ++ ext)).
  { intros H. apply in_app_or in H as [H|H]; [contradiction|].
    apply in_app_or in H as [[H|[]]|H]; [discriminate H|contradiction]. }
  unfold get_slug_from_path.
  destruct (prefix ++ slug ++ [46%N] ++ ext) as [|c p] eqn:E.
  { destruct slug; [discriminate Hdots|].
    apply app_eq_nil in E as [_ E]. discriminate E. }
  rewrite <- E, (basename_last_part _ _ Hprefix Hname). f_equal.
  unfold splitext_root. rewrite (after_last_absent _ _ Hname).
  rewrite app_assoc, (after_last_app_absent _ _ _ Hext_dot), after_last_end.
  cbn [Nat.ltb Nat.leb skipn]. rewrite !Nat.sub_0_r. cbn [Nat.sub].
  rewrite Nat.sub_0_r, <- app_assoc, firstn_all_app, Hdots. reflexivity.
Qed.

Lemma get_slug_from_path_round_trip_witness :
  get_slug_from_path (Some (U "/home/u/Snippets/my-helper.v2.js"))
  = Some (U "my-helper.v2").
Proof.
  apply (get_slug_from_path_round_trip (U "/home/u/Snippets/")
           (U "my-helper.v2") (U "js")).
  - right. exists (U "/home/u/Snippets"). reflexivity.
  - intros H. repeat (destruct H as [H|H]; [discriminate H|]). exact H.
  - reflexivity.
  - intros H. repeat (destruct H as [H|H]; [discriminate H|]). exact H.
  - intros H. repeat (destruct H as [H|H]; [discriminate H|]). exact H.
Defined.

(** What [get_slug_from_path] returns for any path: nothing exactly for no
    path or the empty one; otherwise a slug without slash that starts the
    base name of the path, and that is empty exactly when the path ends with
    a slash. *)
Theorem get_slug_from_path_shape (file_path : option pystr) :
  match get_slug_from_path file_path with
  | None => file_path = None \/ file_path = Some []
  | Some slug =>
      exists p rest,
        file_path = Some p /\ p <> [] /\
        ~ In 47%N slug /\
        basename p = slug ++ rest /\
        (slug = [] <-> exists d, p = d ++ [47%N])
  end.
Proof.
  destruct file_path as [[|c p]|]; cbn [get_slug_from_path]; auto.
  pose proof (basename_no_slash (c :: p)) as Hbase.
  destruct (splitext_root_prefix (basename (c :: p))) as [rest Hrest].
  exists (c :: p), rest. split; [reflexivity|]. split; [discriminate|].
  split; [|split; [exact Hrest|]].
  - intros Hin. apply Hbase. rewrite Hrest. apply in_or_app. now left.
  - rewrite (splitext_root_empty _ Hbase), basename_empty. split.
    + intros [H|H]; [discriminate H|exact H].
    + intros H. now right.
Qed.

(** ** Encoding and stripping *)

Ltac settle_tests :=
  repeat match goal with
    | |- context [N.ltb ?a ?b] =>
        first [ rewrite (proj2 (N.ltb_lt a b)) by lia
              | rewrite (proj2 (N.ltb_ge a b)) by lia ]
    | |- context [N.leb ?a ?b] =>
        first [ rewrite (proj2 (N.leb_le a b)) by lia
              | rewrite (proj2 (N.leb_gt a b)) by lia ]
    end.

Lemma split64 (c : N) :
  exists q r, (c = 64 * q + r /\ r < 64 /\ c / 64 = q /\ c mod 64 = r)%N.
Proof.
  exists (c / 64)%N, (c mod 64)%N. repeat split.
  - apply N.div_mod'.
  - apply N.mod_lt. discriminate.
Qed.

Lemma utf8_encode_cons (c : N) (t : pystr) :
  utf8_encode (c :: t) =
  (if N.ltb c 128 then option_map (cons c) (utf8_encode t)
   else if N.ltb c 2048 then
     option_map (fun r => (192 + c / 64) :: (128 + c mod 64) :: r)
                (utf8_encode t)
   else if N.leb 55296 c && N.leb c 57343 then None
   else if N.ltb c 65536 then
     option_map (fun r => (224 + c / 4096) :: (128 + (c / 64) mod 64) ::
                          (128 + c mod 64) :: r) (utf8_encode t)
   else if N.leb c 1114111 then
     option_map (fun r => (240 + c / 262144) :: (128 + (c / 4096) mod 64) ::
                          (128 + (c / 64) mod 64) :: (128 + c mod 64) :: r)
                (utf8_encode t)
   else None)%N.
Proof. reflexivity. Qed.

Lemma utf8_decode_2 (b0 b1 : N) (t : pybytes) :
  (194 <= b0 <= 223)%N -> (128 <= b1 <= 191)%N ->
  utf8_decode (b0 :: b1 :: t) =
  option_map (cons (cont (b0 - 192) b1)) (utf8_decode t).
Proof.
  intros H0 H1. cbv beta iota delta [utf8_decode]. fold utf8_decode.
  unfold is_cont. settle_tests. reflexivity.
Qed.

Lemma utf8_decode_3 (b0 b1 b2 c : N) (t : pybytes) :
  (224 <= b0 <= 239)%N -> (128 <= b1 <= 191)%N -> (128 <= b2 <= 191)%N ->
  cont (cont (b0 - 224) b1) b2 = c ->
  (2048 <= c)%N -> (c < 55296 \/ 57343 < c)%N ->
  utf8_decode (b0 :: b1 :: b2 :: t) = option_map (cons c) (utf8_decode t).
Proof.
  intros H0 H1 H2 Hc Hlo Hsur. cbv beta iota delta [utf8_decode].
  fold utf8_decode. cbv zeta. rewrite Hc.
  unfold is_cont. settle_tests. cbn [andb].
  destruct Hsur as [Hs|Hs]; settle_tests; reflexivity.
Qed.

Lemma utf8_decode_4 (b0 b1 b2 b3 c : N) (t : pybytes) :
  (240 <= b0 <= 244)%N -> (128 <= b1 <= 191)%N -> (128 <= b2 <= 191)%N ->
  (128 <= b3 <= 191)%N ->
  cont (cont (cont (b0 - 240) b1) b2) b3 = c ->
  (65536 <= c <= 1114111)%N ->
  utf8_decode (b0 :: b1 :: b2 :: b3 :: t) = option_map (cons c) (utf8_decode t).
Proof.
  intros H0 H1 H2 H3 Hc Hr. cbv beta iota delta [utf8_decode].
  fold utf8_decode. cbv zeta. rewrite Hc.
  unfold is_cont. settle_tests. reflexivity.
Qed.

Lemma Some_eq (A : Type) (a b : A) : Some a = Some b -> b = a.
Proof. congruence. Qed.

(** What [str.encode] writes, [bytes.decode] reads back. *)
Lemma utf8_round_trip (s : pystr) :
  forall bs, utf8_encode s = Some bs -> utf8_decode bs = Some s.
Proof.
  induction s as [|c t IH]; intros bs H.
  - injection H as <-. reflexivity.
  - rewrite utf8_encode_cons in H.
    destruct (utf8_encode t) as [r|]; unfold option_map in H.
    2:{ repeat match type of H with
               | (if ?b then _ else _) = _ => destruct b
               end; discriminate H. }
    specialize (IH r eq_refl).
    replace (c / 262144)%N with (c / 64 / 64 / 64)%N in H
      by (rewrite !N.Div0.div_div; reflexivity).
    replace (c / 4096)%N with (c / 64 / 64)%N in H
      by (rewrite !N.Div0.div_div; reflexivity).
    destruct (split64 c) as (q1 & r1 & Hc & Hr1 & Hq1 & Hm1).
    rewrite Hq1, Hm1 in H.
    destruct (split64 q1) as (q2 & r2 & Hc2 & Hr2 & Hq2 & Hm2).
    rewrite Hq2, Hm2 in H.
    destruct (split64 q2) as (q3 & r3 & Hc3 & Hr3 & Hq3 & Hm3).
    rewrite Hq3, Hm3 in H.
    clear Hq1 Hm1 Hq2 Hm2 Hq3 Hm3.
    destruct (N.ltb c 128) eqn:E1.
    { apply Some_eq in H; subst bs. cbv beta iota delta [utf8_decode]. fold utf8_decode.
      rewrite E1, IH. reflexivity. }
    apply N.ltb_ge in E1.
    destruct (N.ltb c 2048) eqn:E2.
    { apply N.ltb_lt in E2. apply Some_eq in H; subst bs.
      rewrite utf8_decode_2, IH by lia. unfold cont, option_map.
      do 2 f_equal. lia. }
    apply N.ltb_ge in E2.
    destruct (N.leb 55296 c && N.leb c 57343) eqn:E3; [discriminate H|].
    assert (Hsur : (c < 55296 \/ 57343 < c)%N).
    { apply andb_false_iff in E3 as [E|E]; apply N.leb_gt in E; lia. }
    destruct (N.ltb c 65536) eqn:E4.
    { apply N.ltb_lt in E4. apply Some_eq in H; subst bs.
      rewrite (utf8_decode_3 _ _ _ c);
        [rewrite IH; reflexivity|unfold cont; lia ..]. }
    apply N.ltb_ge in E4.
    destruct (N.leb c 1114111) eqn:E5; [|discriminate H].
    apply N.leb_le in E5. apply Some_eq in H; subst bs.
    rewrite (utf8_decode_4 _ _ _ _ c);
      [rewrite IH; reflexivity|unfold cont; lia ..].
Qed.

Lemma lstrip_spec (s : pystr) :
  exists a, s = a ++ lstrip s /\ blank a /\
            forall c rest, lstrip s = c :: rest -> isspace c = false.
Proof.
  induction s as [|c t (a & Ht & Ha & Hhd)]; cbn [lstrip].
  - exists []. repeat split; [constructor|discriminate].
  - destruct (isspace c) eqn:E.
    + exists (c :: a). split; [cbn [app]; now rewrite <- Ht|].
      split; [now constructor|exact Hhd].
    + exists []. split; [reflexivity|]. split; [constructor|].
      intros c' rest H. injection H as <- _. exact E.
Qed.

(** [s.strip()] is [s] without a blank start and a blank end, and is
    trimmed. *)
Lemma strip_spec (s : pystr) :
  exists a b, s = a ++ strip s ++ b /\ blank a /\ blank b /\ trimmed (strip s).
Proof.
  unfold strip. destruct (lstrip_spec s) as (a & Hs & Ha & Hhd).
  destruct (lstrip_spec (rev (lstrip s))) as (b & Hr & Hb & Hlast).
  set (core := lstrip (rev (lstrip s))) in *.
  assert (Ht : lstrip s = rev core ++ rev b).
  { rewrite <- rev_app_distr, <- Hr. now rewrite rev_involutive. }
  exists a, (rev b). split; [now rewrite <- Ht|]. split; [exact Ha|].
  split; [unfold blank in *; now apply Forall_rev|]. split.
  - intros c rest H. apply (Hhd c (rest ++ rev b)). rewrite Ht, H. reflexivity.
  - intros front c H. apply (Hlast c (rev front)).
    rewrite <- (rev_involutive core), H, rev_app_distr. reflexivity.
Qed.

Lemma strip_blank (s : pystr) : blank s -> strip s = [].
Proof.
  intros H. unfold strip.
  assert (Hl : lstrip s = []).
  { induction H as [|c t Hc _ IH]; [reflexivity|]. cbn [lstrip]. now rewrite Hc. }
  now rewrite Hl.
Qed.

(** ** The invoker, in any environment *)

Section Invoker.

Variable World : Type.
Variable popen : list pystr -> World -> popen_result * World.
Variable communicate : option pybytes -> World -> communicate_result * World.
Variable cli_path : pystr.
Variable home_snippets : pystr.

Ltac outcome_none :=
  do 3 eexists; (split; [reflexivity|]); cbn [trace snippet_cache];
  rewrite <- ?app_assoc; (split; [split; reflexivity|]);
  (split; [reflexivity|]); eexists; reflexivity.

(** [run_temper] never raises and spawns exactly one process, with the
    configured path followed by the arguments as its command line.  It
    returns [None] exactly when it shows an error dialog, and then shows
    one; a text it returns neither starts nor ends with whitespace. *)
Theorem run_temper_outcome (args : list pystr) (stdin : option pystr)
                           (st : state World) :
  exists out st' evs,
    run_temper popen communicate cli_path args stdin st = (Ok out, st') /\
    after st st' evs /\
    popens evs = [cli_path :: args] /\
    match out with
    | None => exists b, dialogs evs = [b]
    | Some text => dialogs evs = [] /\ trimmed text
    end.
Proof.
  unfold run_temper, bind, os_popen, os_communicate, not_found,
    other_error, emit, ret, bind, after.
  destruct (popen (cli_path :: args) (world st)) as [[| |] w] eqn:Ep;
    cbn [trace snippet_cache world]; try outcome_none.
  destruct (if truthy_str stdin then _ else _) as [input|];
    cbn [trace snippet_cache world]; try outcome_none.
  destruct (communicate input w) as [[out err rc|] w'];
    cbn [trace snippet_cache world]; try outcome_none.
  assert (Htrim : forall text, trimmed (strip text)).
  { intros text. destruct (strip_spec text) as (a & b & _ & _ & _ & H).
    exact H. }
  destruct (negb (rc =? 0)%Z && _);
    [destruct (utf8_decode err)|]; destruct (utf8_decode out);
    cbn [trace snippet_cache world]; try outcome_none;
    do 3 eexists; (split; [reflexivity|]); cbn [trace snippet_cache];
    rewrite <- ?app_assoc; (split; [split; reflexivity|]);
    (split; [reflexivity|]); (split; [reflexivity|apply Htrim]).
Qed.

(** A tool that writes back its input: [run_temper] returns the input text
    stripped, for every non-empty input that [str.encode] accepts. *)
Theorem run_temper_echo (args : list pystr) (s : pystr) (bs : pybytes)
                        (st : state World) (w w' : World) (rc : Z) :
  popen (cli_path :: args) (world st) = (Spawned, w) ->
  s <> [] ->
  utf8_encode s = Some bs ->
  communicate (Some bs) w = (Exited bs [] rc, w') ->
  fst (run_temper popen communicate cli_path args (Some s) st)
  = Ok (Some (strip s)).
Proof.
  intros Hp Hs Henc Hc.
  unfold run_temper, bind, os_popen, os_communicate.
  rewrite Hp. cbn [world]. destruct s as [|c t]; [contradiction|].
  cbn [truthy_str]. rewrite Henc. cbn [option_map world]. rewrite Hc.
  rewrite (utf8_round_trip _ _ Henc), andb_false_r. reflexivity.
Qed.

(** When no process can be spawned, [run_temper] shows one dialog and
    returns [None]. *)
Lemma run_temper_unspawned (args : list pystr) (stdin : option pystr)
                           (st : state World) :
  (forall argv w, fst (popen argv w) <> Spawned) ->
  exists st' b,
    run_temper popen communicate cli_path args stdin st = (Ok None, st') /\
    snippet_cache st' = snippet_cache st /\
    trace st' = trace st ++ [Popen (cli_path :: args); ErrorMessage b].
Proof.
  intros Hmiss. unfold run_temper, bind, os_popen, not_found, other_error,
    emit, ret, bind.
  pose proof (Hmiss (cli_path :: args) (world st)) as H.
  destruct (popen (cli_path :: args) (world st)) as [[| |] w];
    [contradiction| |]; cbn [trace snippet_cache world];
    do 2 eexists; (split; [reflexivity|]); cbn [trace snippet_cache];
    rewrite <- app_assoc; split; reflexivity.
Qed.

End Invoker.

Lemma run_temper_echo_witness :
  fst (run_temper scripted_popen echo_communicate (U "temper")
                  [U "run"; U "upper"; U "--json"]
                  (Some ([32; 233; 8364; 128512; 10]%N)) (start empty_cache))
  = Ok (Some [233; 8364; 128512]%N).
Proof.
  apply (run_temper_echo (list pystr) scripted_popen echo_communicate
           (U "temper") [U "run"; U "upper"; U "--json"]
           [32; 233; 8364; 128512; 10]%N
           [32; 195; 169; 226; 130; 172; 240; 159; 152; 128; 10]%N
           (start empty_cache)
           [U "temper"; U "run"; U "upper"; U "--json"]
           [U "temper"; U "run"; U "upper"; U "--json"] 0%Z);
    [reflexivity|discriminate|reflexivity|reflexivity].
Defined.

(** ** Refreshing the cache *)

Section Refresh.

Context {py : Interpreter}.
Variable World : Type.
Variable popen : list pystr -> World -> popen_result * World.
Variable communicate : option pybytes -> World -> communicate_result * World.
Variable cli_path : pystr.

Ltac invoker_done :=
  do 3 eexists; (split; [reflexivity|]); cbn [trace snippet_cache];
  rewrite <- ?app_assoc; (split; [split; reflexivity|]);
  split; reflexivity.

Lemma run_temper_events (args : list pystr) (stdin : option pystr)
                        (st : state World) :
  exists out st' evs,
    run_temper popen communicate cli_path args stdin st = (Ok out, st') /\
    after st st' evs /\
    forallb invoker_event evs = true /\
    popens evs = [cli_path :: args].
Proof.
  unfold run_temper, bind, os_popen, os_communicate, not_found,
    other_error, emit, ret, bind, after.
  destruct (popen (cli_path :: args) (world st)) as [[| |] w] eqn:Ep;
    cbn [trace snippet_cache world]; try invoker_done.
  destruct (if truthy_str stdin then _ else _) as [input|];
    cbn [trace snippet_cache world]; try invoker_done.
  destruct (communicate input w) as [[out err rc|] w'];
    cbn [trace snippet_cache world]; try invoker_done.
  destruct (negb (rc =? 0)%Z && _);
    [destruct (utf8_decode err)|]; destruct (utf8_decode out);
    cbn [trace snippet_cache world]; invoker_done.
Qed.

Lemma invoker_events_callbacks (evs : list event) :
  forallb invoker_event evs = true -> callbacks evs = O.
Proof.
  unfold callbacks. induction evs as [|ev evs IH]; [reflexivity|].
  cbn [forallb filter]. intros H. apply andb_true_iff in H as [Hev H].
  destruct ev; try discriminate Hev; auto.
Qed.

Lemma callbacks_app (a b : list event) :
  callbacks (a ++ b) = (callbacks a + callbacks b)%nat.
Proof. unfold callbacks. now rewrite filter_app, length_app. Qed.

(** A fetch (of either tier) in any state: it never touches the cache, it
    schedules no callback, and what it returns iterates over records. *)
Lemma fetch_tier (tag : bool) (args : list pystr) (st : state World) :
  exists r st' evs,
    bind (run_temper popen communicate cli_path args None)
         (fun output => lift (parseList tag output)) st = (r, st') /\
    after st st' evs /\ callbacks evs = O /\
    popens evs = [cli_path :: args] /\
    (forall v, r = Ok v ->
       exists items, py_iter v = Ok items /\ Forall is_record items) /\
    forallb invoker_event evs = true.
Proof.
  unfold bind.
  destruct (run_temper_events args None st)
    as (out & st' & evs & -> & Hafter & Hinv & Hp).
  unfold lift. exists (parseList tag out), st', evs.
  split; [reflexivity|]. split; [exact Hafter|].
  split; [now apply invoker_events_callbacks|]. split; [exact Hp|].
  split; [|exact Hinv].
  intros v Hv. exact (parseList_records_only tag out v Hv).
Qed.

(** A refresh keeps the tiers of the cache made of records, whether it ends
    or dies.  When it ends, the cache is no longer loading, the callback has
    been scheduled once (when there is one), and the cloud tier is the old
    one unless the refresh includes the cloud.  When it dies (a fetch
    raised), the cache is left loading and no callback is scheduled. *)
Theorem do_refresh_keeps_records
    (language : option pystr) (include_cloud callback : bool)
    (st : state World) :
  holds_records (snippet_cache st) ->
  exists r st' evs,
    do_refresh popen communicate cli_path language include_cloud callback st
    = (r, st') /\
    trace st' = trace st ++ evs /\
    holds_records (snippet_cache st') /\
    match r with
    | Ok _ =>
        loading (snippet_cache st') = false /\
        callbacks evs = (if callback then 1 else 0)%nat /\
        (include_cloud = false ->
         cloud (snippet_cache st') = cloud (snippet_cache st))
    | Raise _ =>
        loading (snippet_cache st') = true /\ callbacks evs = O
    end.
Proof.
  intros [Hlocal Hcloud].
  unfold do_refresh, list_snippets, search_snippets.
  set (fetch_local := bind (run_temper popen communicate cli_path _ None) _).
  set (fetch_cloud := bind (run_temper popen communicate cli_path _ None) _).
  unfold bind, read_cache, write_cache, ret, emit.
  cbn [snippet_cache world trace local cloud loading].
  subst fetch_local. cbv beta.
  match goal with
  | |- context [bind (run_temper popen communicate cli_path ?a None) _ ?s] =>
      destruct (fetch_tier true a s)
        as (r1 & st1 & evs1 & Hrun1 & [Ht1 Hc1] & Hcb1 & _ & Hrec1 & _)
  end.
  rewrite Hrun1.
  cbn [snippet_cache world trace] in Ht1, Hc1.
  destruct r1 as [l|e].
  2:{ exists (Raise e), st1, evs1. split; [reflexivity|].
      split; [exact Ht1|]. rewrite Hc1.
      split; [split; assumption|]. split; [reflexivity|exact Hcb1]. }
  specialize (Hrec1 l eq_refl). rewrite Hc1.
  cbn [snippet_cache world trace local cloud loading].
  destruct include_cloud.
  - subst fetch_cloud. cbv beta.
    match goal with
    | |- context [bind (run_temper popen communicate cli_path ?a None) _ ?s] =>
        destruct (fetch_tier false a s)
          as (r2 & st2 & evs2 & Hrun2 & [Ht2 Hc2] & Hcb2 & _ & Hrec2 & _)
    end.
    rewrite Hrun2.
    cbn [snippet_cache world trace] in Ht2, Hc2.
    destruct r2 as [r|e].
    2:{ exists (Raise e), st2, (evs1 ++ evs2). split; [reflexivity|].
        split; [now rewrite Ht2, Ht1, app_assoc|]. rewrite Hc2.
        split; [split; assumption|]. split; [reflexivity|].
        now rewrite callbacks_app, Hcb1, Hcb2. }
    specialize (Hrec2 r eq_refl). rewrite Hc2.
    cbn [snippet_cache world trace local cloud loading].
    destruct callback; cbn [snippet_cache world trace local cloud loading].
    + exists (Ok tt). eexists. exists ((evs1 ++ evs2) ++ [Callback]).
      split; [reflexivity|]. cbn [snippet_cache trace].
      split; [now rewrite Ht2, Ht1, !app_assoc|].
      split; [split; assumption|]. split; [reflexivity|].
      split; [|discriminate].
      now rewrite !callbacks_app, Hcb1, Hcb2.
    + exists (Ok tt). eexists. exists (evs1 ++ evs2).
      split; [reflexivity|]. cbn [snippet_cache trace].
      split; [now rewrite Ht2, Ht1, !app_assoc|].
      split; [split; assumption|]. split; [reflexivity|].
      split; [|discriminate].
      now rewrite !callbacks_app, Hcb1, Hcb2.
  - destruct callback; cbn [snippet_cache world trace local cloud loading].
    + exists (Ok tt). eexists. exists (evs1 ++ [Callback]).
      split; [reflexivity|]. cbn [snippet_cache trace].
      split; [now rewrite Ht1, !app_assoc|].
      split; [split; assumption|]. split; [reflexivity|].
      split; [|reflexivity].
      now rewrite !callbacks_app, Hcb1.
    + exists (Ok tt). eexists. exists evs1.
      split; [reflexivity|]. cbn [snippet_cache trace].
      split; [exact Ht1|].
      split; [split; assumption|]. split; [reflexivity|].
      split; [exact Hcb1|reflexivity].
Qed.

(** A refresh when no process can be spawned. *)
Lemma do_refresh_unspawned
    (language : option pystr) (include_cloud callback : bool)
    (st : state World) :
  (forall argv w, fst (popen argv w) <> Spawned) ->
  exists st' evs,
    do_refresh popen communicate cli_path language include_cloud callback st
    = (Ok tt, st') /\
    trace st' = trace st ++ evs /\
    snippet_cache st' =
      {| local := PList [];
         cloud := if include_cloud then PList []
                  else cloud (snippet_cache st);
         loading := false |} /\
    List.length (dialogs evs) = (if include_cloud then 2 else 1)%nat /\
    callbacks evs = (if callback then 1 else 0)%nat /\
    forallb refresh_event evs = true.
Proof.
  intros Hmiss.
  assert (Hfetch : forall tag args s,
             exists s' b,
               bind (run_temper popen communicate cli_path args None)
                    (fun output => lift (parseList tag output)) s
               = (Ok (PList []), s') /\
               snippet_cache s' = snippet_cache s /\
               trace s' = trace s ++ [Popen (cli_path :: args); ErrorMessage b]).
  { intros tag args s. unfold bind.
    destruct (run_temper_unspawned World popen communicate cli_path args None
                s Hmiss) as (s' & b & -> & Hc & Ht).
    exists s', b. auto. }
  unfold do_refresh, list_snippets, search_snippets.
  set (fetch_local := bind (run_temper popen communicate cli_path _ None) _).
  set (fetch_cloud := bind (run_temper popen communicate cli_path _ None) _).
  unfold bind, read_cache, write_cache, ret, emit.
  cbn [snippet_cache world trace local cloud loading].
  subst fetch_local. cbv beta.
  match goal with
  | |- context [bind (run_temper popen communicate cli_path ?a None) _ ?s] =>
      destruct (Hfetch true a s) as (st1 & b1 & Hrun1 & Hc1 & Ht1)
  end.
  rewrite Hrun1. cbn [snippet_cache world trace] in Ht1, Hc1. rewrite Hc1.
  cbn [snippet_cache world trace local cloud loading].
  destruct include_cloud.
  - subst fetch_cloud. cbv beta.
    match goal with
    | |- context [bind (run_temper popen communicate cli_path ?a None) _ ?s] =>
        destruct (Hfetch false a s) as (st2 & b2 & Hrun2 & Hc2 & Ht2)
    end.
    rewrite Hrun2. cbn [snippet_cache world trace] in Ht2, Hc2. rewrite Hc2.
    cbn [snippet_cache world trace local cloud loading].
    destruct callback; cbn [snippet_cache world trace local cloud loading];
      eexists; eexists; (split; [reflexivity|]); cbn [snippet_cache trace];
      rewrite Ht2, Ht1, <- ?app_assoc;
      (split; [reflexivity|]); repeat split; reflexivity.
  - destruct callback; cbn [snippet_cache world trace local cloud loading];
      eexists; eexists; (split; [reflexivity|]); cbn [snippet_cache trace];
      rewrite Ht1, <- ?app_assoc;
      (split; [reflexivity|]); repeat split; reflexivity.
Qed.

(** Without a tool that can be spawned, a refresh ends with the fetched
    tiers empty: what the local tier held before is gone, and so is the
    cloud tier when the refresh includes it.  Each fetch shows one error
    dialog. *)
Theorem do_refresh_without_tool
    (language : option pystr) (include_cloud callback : bool)
    (st : state World) :
  (forall argv w, fst (popen argv w) <> Spawned) ->
  exists st' evs,
    do_refresh popen communicate cli_path language include_cloud callback st
    = (Ok tt, st') /\
    trace st' = trace st ++ evs /\
    snippet_cache st' =
      {| local := PList [];
         cloud := if include_cloud then PList []
                  else cloud (snippet_cache st);
         loading := false |} /\
    List.length (dialogs evs) = (if include_cloud then 2 else 1)%nat /\
    callbacks evs = (if callback then 1 else 0)%nat.
Proof.
  intros Hmiss.
  destruct (do_refresh_unspawned language include_cloud callback st Hmiss)
    as (st' & evs & Hrun & Ht & Hc & Hd & Hcb & _).
  exists st', evs. repeat split; assumption.
Qed.

Lemma invoker_is_refresh (evs : list event) :
  forallb invoker_event evs = true -> forallb refresh_event evs = true.
Proof.
  induction evs as [|ev evs IH]; [reflexivity|]. cbn [forallb].
  intros H. apply andb_true_iff in H as [Hev H]. rewrite (IH H).
  destruct ev; try discriminate Hev; reflexivity.
Qed.

(** A refresh in any state: its events are those of the invoker and the
    callback, and it spawns the list query, then (when it includes the
    cloud and the first fetch did not raise) the search query. *)
Lemma do_refresh_run
    (language : option pystr) (include_cloud callback : bool)
    (st : state World) :
  exists r st' evs,
    do_refresh popen communicate cli_path language include_cloud callback st
    = (r, st') /\
    trace st' = trace st ++ evs /\
    forallb refresh_event evs = true /\
    (popens evs = [list_query cli_path language] \/
     popens evs = [list_query cli_path language;
                   search_query cli_path language]) /\
    (r = Ok tt ->
     popens evs = list_query cli_path language ::
                  (if include_cloud then [search_query cli_path language]
                   else []) /\
     loading (snippet_cache st') = false /\
     callbacks evs = (if callback then 1 else 0)%nat /\
     (include_cloud = true -> holds_records (snippet_cache st'))) /\
    (forall e, r = Raise e ->
     loading (snippet_cache st') = true /\ callbacks evs = O).
Proof.
  unfold do_refresh, list_snippets, search_snippets.
  set (fetch_local := bind (run_temper popen communicate cli_path _ None) _).
  set (fetch_cloud := bind (run_temper popen communicate cli_path _ None) _).
  unfold bind, read_cache, write_cache, ret, emit.
  cbn [snippet_cache world trace local cloud loading].
  subst fetch_local. cbv beta.
  match goal with
  | |- context [bind (run_temper popen communicate cli_path ?a None) _ ?s] =>
      destruct (fetch_tier true a s)
        as (r1 & st1 & evs1 & Hrun1 & [Ht1 Hc1] & Hcb1 & Hp1 & Hrec1 & Hev1)
  end.
  rewrite Hrun1. cbn [snippet_cache world trace] in Ht1, Hc1.
  pose proof (invoker_is_refresh _ Hev1) as Hre1.
  change (popens evs1 = [list_query cli_path language]) in Hp1.
  destruct r1 as [l|e].
  2:{ exists (Raise e), st1, evs1. split; [reflexivity|].
      split; [exact Ht1|]. split; [exact Hre1|]. split; [now left|].
      split; [discriminate|]. intros e' _. rewrite Hc1.
      split; [reflexivity|exact Hcb1]. }
  specialize (Hrec1 l eq_refl). rewrite Hc1.
  cbn [snippet_cache world trace local cloud loading].
  destruct include_cloud.
  - subst fetch_cloud. cbv beta.
    match goal with
    | |- context [bind (run_temper popen communicate cli_path ?a None) _ ?s]
      => destruct (fetch_tier false a s)
          as (r2 & st2 & evs2 & Hrun2 & [Ht2 Hc2] & Hcb2 & Hp2 & Hrec2 & Hev2)
    end.
    rewrite Hrun2. cbn [snippet_cache world trace] in Ht2, Hc2.
    pose proof (invoker_is_refresh _ Hev2) as Hre2.
    change (popens evs2 = [search_query cli_path language]) in Hp2.
    assert (Hp : popens (evs1 ++ evs2) =
                 [list_query cli_path language;
                  search_query cli_path language])
      by (now rewrite popens_app, Hp1, Hp2).
    assert (Hev : forallb refresh_event (evs1 ++ evs2) = true)
      by (now rewrite forallb_app, Hre1, Hre2).
    assert (Hcb : callbacks (evs1 ++ evs2) = O)
      by (now rewrite callbacks_app, Hcb1, Hcb2).
    destruct r2 as [r|e].
    2:{ exists (Raise e), st2, (evs1 ++ evs2). split; [reflexivity|].
        split; [now rewrite Ht2, Ht1, app_assoc|]. split; [exact Hev|].
        split; [now right|]. split; [discriminate|]. intros e' _.
        rewrite Hc2. split; [reflexivity|exact Hcb]. }
    specialize (Hrec2 r eq_refl). rewrite Hc2.
    cbn [snippet_cache world trace local cloud loading].
    destruct callback; cbn [snippet_cache world trace local cloud loading].
    + exists (Ok tt). eexists. exists ((evs1 ++ evs2) ++ [Callback]).
      split; [reflexivity|]. cbn [snippet_cache trace].
      split; [now rewrite Ht2, Ht1, !app_assoc|].
      split; [now rewrite forallb_app, Hev|].
      assert (Hp' : popens ((evs1 ++ evs2) ++ [Callback]) =
                    [list_query cli_path language;
                     search_query cli_path language])
        by (rewrite popens_app, Hp; reflexivity).
      split; [now right|]. split; [|discriminate]. intros _.
      split; [exact Hp'|]. split; [reflexivity|].
      split; [now rewrite callbacks_app, Hcb|].
      intros _. split; assumption.
    + exists (Ok tt). eexists. exists (evs1 ++ evs2).
      split; [reflexivity|]. cbn [snippet_cache trace].
      split; [now rewrite Ht2, Ht1, !app_assoc|].
      split; [exact Hev|]. split; [now right|]. split; [|discriminate].
      intros _. split; [exact Hp|]. split; [reflexivity|].
      split; [exact Hcb|]. intros _. split; assumption.
  - destruct callback; cbn [snippet_cache world trace local cloud loading].
    + exists (Ok tt). eexists. exists (evs1 ++ [Callback]).
      split; [reflexivity|]. cbn [snippet_cache trace].
      split; [now rewrite Ht1, !app_assoc|].
      split; [now rewrite forallb_app, Hre1|].
      assert (Hp' : popens (evs1 ++ [Callback]) =
                    [list_query cli_path language])
        by (rewrite popens_app, Hp1; reflexivity).
      split; [now left|]. split; [|discriminate]. intros _.
      split; [exact Hp'|]. split; [reflexivity|].
      split; [now rewrite callbacks_app, Hcb1|discriminate].
    + exists (Ok tt). eexists. exists evs1.
      split; [reflexivity|]. cbn [snippet_cache trace].
      split; [exact Ht1|]. split; [exact Hre1|]. split; [now left|].
      split; [|discriminate]. intros _.
      split; [exact Hp1|]. split; [reflexivity|].
      split; [exact Hcb1|discriminate].
Qed.

End Refresh.

Lemma do_refresh_keeps_records_witness :
  exists r st' evs,
    do_refresh (py := cpython) scripted_popen
               (scripted_communicate (prints dup_payload))
               (U "temper") (Some (U "python")) true true (start empty_cache)
    = (r, st') /\
    trace st' = trace (start empty_cache) ++ evs /\
    holds_records (snippet_cache st') /\
    match r with
    | Ok _ =>
        loading (snippet_cache st') = false /\
        callbacks evs = 1%nat /\
        (true = false ->
         cloud (snippet_cache st') = cloud (snippet_cache (start empty_cache)))
    | Raise _ =>
        loading (snippet_cache st') = true /\ callbacks evs = O
    end.
Proof.
  apply (do_refresh_keeps_records (py := cpython) (list pystr) scripted_popen
           (scripted_communicate (prints dup_payload)) (U "temper")
           (Some (U "python")) true true (start empty_cache)).
  split; exists []; split; [reflexivity|constructor|reflexivity|constructor].
Defined.

Lemma do_refresh_without_tool_witness :
  exists st' evs,
    do_refresh (py := cpython) missing_popen
               (scripted_communicate configured) (U "temper")
               None true true
               (start (catalog sample_local sample_cloud false))
    = (Ok tt, st') /\
    trace st' = evs /\
    snippet_cache st' = empty_cache /\
    List.length (dialogs evs) = 2%nat /\
    callbacks evs = 1%nat.
Proof.
  apply (do_refresh_without_tool (py := cpython) (list pystr) missing_popen
           (scripted_communicate configured) (U "temper") None true true
           (start (catalog sample_local sample_cloud false))).
  intros argv w. discriminate.
Defined.

(** ** Commands *)

Lemma statuses_app (a b : list event) :
  statuses (a ++ b) = statuses a ++ statuses b.
Proof. unfold statuses. apply flat_map_app. Qed.

Lemma panels_app (a b : list event) : panels (a ++ b) = panels a ++ panels b.
Proof. unfold panels. apply flat_map_app. Qed.

Lemma dialogs_app (a b : list event) :
  dialogs (a ++ b) = dialogs a ++ dialogs b.
Proof. unfold dialogs. apply flat_map_app. Qed.

(** A refresh and the invoker show neither a status message nor a panel. *)
Lemma refresh_events_quiet (evs : list event) :
  forallb refresh_event evs = true -> statuses evs = [] /\ panels evs = [].
Proof.
  induction evs as [|ev evs IH]; [split; reflexivity|].
  cbn [forallb]. intros H. apply andb_true_iff in H as [Hev H].
  destruct (IH H) as [Hs Hp].
  destruct ev; try discriminate Hev; split; assumption.
Qed.

Lemma map_result_length (A B : Type) (f : A -> result B) (l : list A)
                        (out : list B) :
  map_result f l = Ok out -> List.length out = List.length l.
Proof.
  revert out. induction l as [|a l IH]; intros out H.
  - injection H as <-. reflexivity.
  - cbn [map_result] in H. unfold rbind in H.
    destruct (f a); [|discriminate].
    destruct (map_result f l) as [bs|]; [|discriminate].
    injection H as <-. cbn [List.length]. now rewrite (IH bs eq_refl).
Qed.

Lemma filter_language_incl (language : pystr) (results filtered : list pyval) :
  filter_language language results = Ok filtered -> incl filtered results.
Proof.
  revert filtered. induction results as [|r rest IH]; intros filtered H.
  - injection H as <-. apply incl_refl.
  - cbn [filter_language] in H. unfold rbind in H.
    destruct (py_get r (U "languages") (PList [])); [|discriminate].
    destruct (str_in language _) as [keep|]; [|discriminate].
    destruct (filter_language language rest) as [rest'|]; [|discriminate].
    injection H as <-. specialize (IH rest' eq_refl).
    destruct keep.
    + apply incl_cons; [now left|]. now apply incl_tl.
    + now apply incl_tl.
Qed.

Section CommandFacts.

Context {py : Interpreter}.
Variable World : Type.
Variable popen : list pystr -> World -> popen_result * World.
Variable communicate : option pybytes -> World -> communicate_result * World.
Variable cli_path : pystr.
Variable lower : pystr -> pystr.
Variable sel : list (Z * Z).
Variable substr : Z * Z -> pystr.

Ltac invoker_full :=
  do 3 eexists; (split; [reflexivity|]); cbn [trace snippet_cache];
  rewrite <- ?app_assoc; (split; [split; reflexivity|]);
  (split; [reflexivity|]); (split; [reflexivity|]);
  intros Hd; first [reflexivity | exfalso; apply Hd; reflexivity].

(** [run_temper] in any state: it returns [None] whenever it shows an error
    dialog. *)
Lemma run_temper_run (args : list pystr) (stdin : option pystr)
                     (st : state World) :
  exists out st' evs,
    run_temper popen communicate cli_path args stdin st = (Ok out, st') /\
    after st st' evs /\
    forallb invoker_event evs = true /\
    popens evs = [cli_path :: args] /\
    (dialogs evs <> [] -> out = None).
Proof.
  unfold run_temper, bind, os_popen, os_communicate, not_found,
    other_error, emit, ret, bind, after.
  destruct (popen (cli_path :: args) (world st)) as [[| |] w] eqn:Ep;
    cbn [trace snippet_cache world]; try invoker_full.
  destruct (if truthy_str stdin then _ else _) as [input|];
    cbn [trace snippet_cache world]; try invoker_full.
  destruct (communicate input w) as [[out err rc|] w'];
    cbn [trace snippet_cache world]; try invoker_full.
  destruct (negb (rc =? 0)%Z && _);
    [destruct (utf8_decode err)|]; destruct (utf8_decode out);
    cbn [trace snippet_cache world]; invoker_full.
Qed.

(** [run_snippet] raises only when the decoder does, with
    [RecursionError]. *)
Lemma parseRun_raises (output : option pystr) (e : exn) :
  parseRun output = Raise e -> e = RecursionError.
Proof.
  unfold parseRun. destruct output as [[|c o]|]; try discriminate.
  destruct (json_loads (c :: o)) as [v|[]] eqn:E; try discriminate;
    try (apply json_loads_raises in E as [E|E]; discriminate E);
    [|congruence].
  destruct (startswith (c :: o) (U "{")); [|discriminate].
  destruct (json_loads (first_line (c :: o))) as [v|[]] eqn:E1;
    try discriminate;
    try (apply json_loads_raises in E1 as [E1|E1]; discriminate E1).
  congruence.
Qed.

(** [run_snippet] for any value as slug. *)
Lemma run_snippet_value_run (slug : pyval) (stdin : option pystr)
                            (st : state World) :
  exists out st' evs,
    run_snippet_value popen communicate cli_path slug stdin st
    = (parseRun out, st') /\
    after st st' evs /\
    forallb invoker_event evs = true /\
    popens evs = match slug with
                 | PStr s => [[cli_path; U "run"; s; U "--json"]]
                 | _ => []
                 end /\
    (dialogs evs <> [] -> out = None).
Proof.
  assert (Hother : exists out st' evs,
             bind (other_error (World := World))
                  (fun output => lift (parseRun output)) st
             = (parseRun out, st') /\
             after st st' evs /\ forallb invoker_event evs = true /\
             popens evs = [] /\ (dialogs evs <> [] -> out = None)).
  { exists None. unfold bind, other_error, bind, emit, ret, lift, after.
    do 2 eexists. split; [reflexivity|]. cbn [trace snippet_cache].
    split; [split; reflexivity|]. repeat split; reflexivity. }
  destruct slug; try exact Hother.
  unfold run_snippet_value, run_snippet, bind.
  destruct (run_temper_run [U "run"; s; U "--json"] stdin st)
    as (out & st' & evs & -> & Hafter & Hev & Hp & Hd).
  exists out, st', evs. unfold lift. auto.
Qed.

(** [run_snippet] leaves the cache alone and spawns the tool once, to run
    the snippet.  Whenever the invoker showed an error dialog it returns the
    synthetic failure.  It raises nothing but the [RecursionError] of the
    decoder, on an output nested deeper than the interpreter allows. *)
Theorem run_snippet_reports_failure (slug : pystr) (stdin : option pystr)
                                    (st : state World) :
  exists r st' evs,
    run_snippet popen communicate cli_path slug stdin st = (r, st') /\
    after st st' evs /\
    popens evs = [[cli_path; U "run"; slug; U "--json"]] /\
    (dialogs evs <> [] -> r = Ok failed_to_run) /\
    (forall e, r = Raise e -> e = RecursionError).
Proof.
  destruct (run_snippet_value_run (PStr slug) stdin st)
    as (out & st' & evs & Hrun & Hafter & _ & Hp & Hd).
  exists (parseRun out), st', evs. split; [exact Hrun|].
  split; [exact Hafter|]. split; [exact Hp|]. split.
  - intros H. now rewrite (Hd H).
  - apply parseRun_raises.
Qed.


(** What [run_and_apply] schedules: the error status, or what the command
    does with the output.  It raises when the result is not an object. *)
Lemma run_and_apply_run (cmd : run_command) (slug : pyval)
                        (session : run_session) (st : state World) :
  exists r st' evs,
    run_and_apply popen communicate cli_path cmd slug session st = (r, st') /\
    after st st' evs /\
    forallb invoker_event evs = true /\
    (forall calls, r = Ok calls ->
       (exists error_msg,
          calls = [UiStatus (Cat (Lit (U "Error: ")) (Str error_msg))]) \/
       (exists output,
          calls = apply_output cmd slug output (selection session))) /\
    (dialogs evs <> [] ->
     r = Ok [UiStatus (Cat (Lit (U "Error: "))
                           (Str (PStr (U "Failed to run temper"))))]).
Proof.
  unfold run_and_apply, bind.
  destruct (run_snippet_value_run slug
              match selected_text session with
              | [] => None
              | c :: t => Some (c :: t)
              end st)
    as (out & st' & evs & -> & Hafter & Hev & _ & Hd).
  unfold lift.
  destruct (parseRun out) as [[| | | | | |d]|e] eqn:Eres;
    try (cbn [py_get]; exists (Raise AttributeError), st', evs;
         split; [reflexivity|]; split; [exact Hafter|]; split; [exact Hev|];
         split; [discriminate|]; intros H; rewrite (Hd H) in Eres;
         discriminate Eres).
  2:{ exists (Raise e), st', evs.
      split; [reflexivity|]. split; [exact Hafter|]. split; [exact Hev|].
      split; [discriminate|]. intros H. rewrite (Hd H) in Eres.
      discriminate Eres. }
  cbn [py_get].
  destruct (negb (truthy _)) eqn:Esucc; unfold ret.
  - do 2 eexists. exists evs. split; [reflexivity|].
    split; [exact Hafter|]. split; [exact Hev|]. split.
    + intros calls H. injection H as <-. left. eexists. reflexivity.
    + intros H. rewrite (Hd H) in Eres. injection Eres as <-. reflexivity.
  - do 2 eexists. exists evs. split; [reflexivity|].
    split; [exact Hafter|]. split; [exact Hev|]. split.
    + intros calls H. injection H as <-. right. eexists. reflexivity.
    + intros H. rewrite (Hd H) in Eres. injection Eres as <-.
      discriminate Esucc.
Qed.

(** The calls of a run command whose session has a selection. *)
Lemma apply_output_edits (cmd : run_command) (slug output : pyval)
                         (region : Z * Z) :
  ~ In UiCallbackFailed (apply_output cmd slug output (Some region)) /\
  edits (apply_output cmd slug output (Some region)) =
  match cmd with
  | RunReplace | RunInsertBelow => [(mode cmd, output, region)]
  | _ => []
  end.
Proof.
  destruct cmd; (split; [|reflexivity]); cbn [apply_output In];
    intros H; repeat destruct H as [H|H]; try discriminate H; exact H.
Qed.

(** A run session edits the buffer at most once, with the mode of its
    command and at the first selection region as it was when the command
    started, which is then not empty; the commands that show the output
    never edit.  No scheduled call fails for want of a selection.  A
    command other than the one that shows the output gives up at once when
    the first selection is missing or empty: it shows a status message and
    does nothing else. *)
Theorem run_session_edits (cmd : run_command) (index : Z)
                          (st : state World) :
  exists r st',
    run_command_session popen communicate cli_path sel substr cmd index st
    = (r, st') /\
    (nothing_selected sel = true -> cmd <> RunShowOutput ->
     r = Ok None /\
     st' = {| world := world st; snippet_cache := snippet_cache st;
              trace := trace st ++ [StatusMessage (U "No text selected")] |}) /\
    (forall calls, r = Ok (Some (Worked calls)) ->
       ~ In UiCallbackFailed calls /\
       (edits calls = [] \/
        exists output a b,
          hd_error sel = Some (a, b) /\ a <> b /\
          (cmd = RunReplace \/ cmd = RunInsertBelow) /\
          edits calls = [(mode cmd, output, (a, b))])).
Proof.
  unfold run_command_session, run_start, bind.
  destruct (negb (str_eqb (mode cmd) (U "show_output")) &&
            match sel with [] => true | (a, b) :: _ => (a =? b)%Z end)
    eqn:Egate.
  { unfold emit, ret. do 2 eexists. split; [reflexivity|].
    split; [intros _ _; split; reflexivity|discriminate]. }
  assert (Hgo : nothing_selected sel = true -> cmd <> RunShowOutput ->
                False).
  { unfold nothing_selected. intros Hn Hc. rewrite Hn, andb_true_r in Egate.
    destruct cmd; try discriminate Egate. now apply Hc. }
  unfold emit at 1. unfold ret at 1.
  cbn [trace snippet_cache world].
  match goal with
  | |- context [do_refresh popen communicate cli_path None true true ?s] =>
      destruct (do_refresh_run World popen communicate cli_path None true
                  true s) as (r1 & st1 & evs1 & -> & _)
  end.
  destruct r1 as [[]|e];
    [|do 2 eexists; split; [reflexivity|];
      split; [intros Hn Hc; destruct (Hgo Hn Hc)|discriminate]].
  unfold run_show_panel, bind, read_cache, lift.
  destruct (get_all_snippets (snippet_cache st1)) as [[|a all]|e];
    [unfold emit, ret; do 2 eexists; split; [reflexivity|];
     split; [intros Hn Hc; destruct (Hgo Hn Hc)|discriminate]| |
     do 2 eexists; split; [reflexivity|];
     split; [intros Hn Hc; destruct (Hgo Hn Hc)|discriminate]].
  destruct (map_result format_snippet_item (a :: all)) as [items|e];
    [|do 2 eexists; split; [reflexivity|];
      split; [intros Hn Hc; destruct (Hgo Hn Hc)|discriminate]].
  unfold emit, ret. cbn [trace snippet_cache world].
  unfold run_on_select, bind. cbn [results selection selected_text].
  destruct (index <? 0)%Z;
    [unfold emit, ret; do 2 eexists; split; [reflexivity|];
     split; [intros Hn Hc; destruct (Hgo Hn Hc)|discriminate]|].
  destruct (nth_error (a :: all) (Z.to_nat index)) as [chosen|];
    [|unfold ret; do 2 eexists; split; [reflexivity|];
      split; [intros Hn Hc; destruct (Hgo Hn Hc)|discriminate]].
  destruct chosen as [| | | | | |d];
    try (unfold lift; do 2 eexists; split; [reflexivity|];
         split; [intros Hn Hc; destruct (Hgo Hn Hc)|discriminate]).
  destruct (dict_lookup d (U "slug")) as [slug|];
    [|unfold ret; do 2 eexists; split; [reflexivity|];
      split; [intros Hn Hc; destruct (Hgo Hn Hc)|discriminate]].
  unfold bind.
  match goal with
  | |- context [run_and_apply popen communicate cli_path cmd slug ?ses ?s] =>
      destruct (run_and_apply_run cmd slug ses s)
        as (r2 & st2 & evs2 & -> & _ & _ & Hcalls & _)
  end.
  destruct r2 as [calls|e];
    [|do 2 eexists; split; [reflexivity|];
      split; [intros Hn Hc; destruct (Hgo Hn Hc)|discriminate]].
  unfold ret. do 2 eexists. split; [reflexivity|].
  split; [intros Hn Hc; destruct (Hgo Hn Hc)|].
  intros calls' H. injection H as <-.
  destruct (Hcalls calls eq_refl) as [[msg ->]|[output ->]].
  { split; [|now left]. intros [H|[]]. discriminate H. }
  cbn [selection].
  destruct sel as [|[a0 b0] rest].
  { destruct cmd; try discriminate Egate.
    split; [|now left]. cbn [hd_error apply_output In].
    intros H; repeat destruct H as [H|H]; try discriminate H; exact H. }
  cbn [hd_error].
  destruct (apply_output_edits cmd slug output (a0, b0)) as [Hnf He].
  split; [exact Hnf|]. rewrite He.
  destruct cmd; try (now left); right; exists output, a0, b0;
    cbn [mode negb str_eqb andb] in Egate;
    (assert (Hab : (a0 =? b0)%Z = false) by exact Egate);
    apply Z.eqb_neq in Hab; repeat split; auto.
Qed.


(** [show_panel] in any state: it spawns nothing and leaves the cache
    alone; the list it presents is not empty and is taken from the merged
    view, one line per record. *)
Lemma show_panel_run (language : option pystr) (st : state World) :
  exists r st' evs,
    show_panel language st = (r, st') /\
    after st st' evs /\ popens evs = [] /\ dialogs evs = [] /\
    (forall results, r = Ok (Some results) ->
       results <> [] /\
       exists all items,
         get_all_snippets (snippet_cache st) = Ok all /\
         incl results all /\
         (language = None -> results = all) /\
         panels evs = [items] /\
         List.length items = List.length results) /\
    (r = Ok None ->
     get_all_snippets (snippet_cache st) = Ok [] /\
     statuses evs = [U "Temper: No snippets available"] /\ panels evs = []).
Proof.
  unfold show_panel, bind, read_cache, lift.
  destruct (get_all_snippets (snippet_cache st)) as [[|a all]|e] eqn:Eall.
  - unfold emit, ret. do 3 eexists. split; [reflexivity|].
    cbn [trace snippet_cache]. split; [split; reflexivity|].
    split; [reflexivity|]. split; [reflexivity|].
    split; [discriminate|]. intros _. repeat split; reflexivity.
  - assert (Hshow : forall results,
               results <> [] -> incl results (a :: all) ->
               (language = None -> results = a :: all) ->
               exists r st' evs,
                 bind (lift (map_result format_snippet_item results))
                      (fun items =>
                         bind (emit (QuickPanel items))
                              (fun _ => bind (emit (StatusMessage []))
                                             (fun _ => ret (Some results))))
                      st = (r, st') /\
                 after st st' evs /\ popens evs = [] /\ dialogs evs = [] /\
                 (forall results', r = Ok (Some results') ->
                    results' <> [] /\
                    exists all' items,
                      Ok (a :: all) = Ok all' /\
                      incl results' all' /\
                      (language = None -> results' = all') /\
                      panels evs = [items] /\
                      List.length items = List.length results') /\
                 (r = Ok None ->
                  Ok (a :: all) = Ok (@nil pyval) /\
                  statuses evs = [U "Temper: No snippets available"] /\
                  panels evs = [])).
    { intros results Hne Hincl Hnone. unfold bind, lift.
      destruct (map_result format_snippet_item results) as [items|e] eqn:Ei.
      - unfold emit, ret. do 3 eexists. split; [reflexivity|].
        cbn [trace snippet_cache]. rewrite <- app_assoc.
        split; [split; reflexivity|]. split; [reflexivity|].
        split; [reflexivity|]. split; [|discriminate].
        intros results' H. injection H as <-. split; [exact Hne|].
        exists (a :: all), items. split; [reflexivity|].
        split; [exact Hincl|]. split; [exact Hnone|].
        split; [reflexivity|]. exact (map_result_length _ _ _ _ _ Ei).
      - exists (Raise e), st, []. split; [reflexivity|].
        split; [split; [now rewrite app_nil_r|reflexivity]|].
        split; [reflexivity|]. split; [reflexivity|].
        split; discriminate. }
    destruct language as [[|ch l]|].
    + unfold ret at 1. apply Hshow;
        [discriminate|apply incl_refl|discriminate].
    + unfold lift.
      destruct (filter_language (ch :: l) (a :: all)) as [[|f fs]|e] eqn:Ef.
      * unfold ret at 1. apply Hshow;
          [discriminate|apply incl_refl|discriminate].
      * unfold ret at 1. apply Hshow;
          [discriminate|exact (filter_language_incl _ _ _ Ef)|discriminate].
      * exists (Raise e), st, []. split; [reflexivity|].
        split; [split; [now rewrite app_nil_r|reflexivity]|].
        split; [reflexivity|]. split; [reflexivity|].
        split; discriminate.
    + unfold ret at 1. apply Hshow;
        [discriminate|apply incl_refl|reflexivity].
  - exists (Raise e), st, []. split; [reflexivity|].
    split; [split; [now rewrite app_nil_r|reflexivity]|].
    split; [reflexivity|]. split; [reflexivity|]. split; discriminate.
Qed.

(** An insertion session never passes the view's language to the tool: it
    spawns the list query and the search query for all languages, whatever
    the syntax.  The language only narrows what the panel presents: a list
    that is not empty, taken from the merged view of the refreshed cache,
    and the whole merged view when the syntax maps to no language. *)
Theorem search_insert_queries_every_language (syntax : pystr)
                                             (st : state World) :
  exists r st' evs,
    search_insert popen communicate cli_path lower syntax st = (r, st') /\
    trace st' = trace st ++ evs /\
    (popens evs = [list_query cli_path None] \/
     popens evs = [list_query cli_path None; search_query cli_path None]) /\
    (forall results, r = Ok (Some results) ->
       popens evs = [list_query cli_path None; search_query cli_path None] /\
       results <> [] /\
       exists all items,
         get_all_snippets (snippet_cache st') = Ok all /\
         incl results all /\
         (get_temper_language lower syntax = None -> results = all) /\
         panels evs = [items] /\
         List.length items = List.length results).
Proof.
  unfold search_insert, bind. unfold emit at 1.
  cbn [trace snippet_cache world].
  match goal with
  | |- context [do_refresh popen communicate cli_path None true true ?s] =>
      destruct (do_refresh_run World popen communicate cli_path None true
                  true s)
        as (r1 & st1 & evs1 & -> & Ht1 & Hev1 & Hp1 & Hok & _)
  end.
  cbn [trace] in Ht1.
  destruct r1 as [[]|e].
  2:{ exists (Raise e), st1, (StatusMessage (U "Temper: Loading snippets...")
                              :: evs1).
      split; [reflexivity|]. split; [now rewrite Ht1, <- app_assoc|].
      split; [exact Hp1|discriminate]. }
  destruct (Hok eq_refl) as (Hp & _).
  destruct (refresh_events_quiet _ Hev1) as [_ Hpan1].
  destruct (show_panel_run (get_temper_language lower syntax) st1)
    as (r2 & st2 & evs2 & -> & [Ht2 Hc2] & Hp2 & _ & Hres & _).
  exists r2, st2,
    ((StatusMessage (U "Temper: Loading snippets...") :: evs1) ++ evs2).
  split; [reflexivity|].
  split; [now rewrite Ht2, Ht1, <- !app_assoc|].
  assert (Hpop : popens ((StatusMessage (U "Temper: Loading snippets...")
                          :: evs1) ++ evs2) =
                 [list_query cli_path None; search_query cli_path None]).
  { rewrite popens_app, Hp2, app_nil_r. exact Hp. }
  split; [now right|].
  intros results Hr. destruct (Hres results Hr)
    as (Hne & all & items & Hall & Hincl & Hnone & Hpan & Hlen).
  split; [exact Hpop|]. split; [exact Hne|].
  exists all, items. rewrite Hc2. split; [exact Hall|].
  split; [exact Hincl|]. split; [exact Hnone|]. split; [|exact Hlen].
  rewrite panels_app, Hpan.
  change (panels (StatusMessage (U "Temper: Loading snippets...") :: evs1))
    with (panels evs1).
  now rewrite Hpan1.
Qed.

(** Without a tool that can be spawned, a session never reaches the panel:
    after the two error dialogs of the refresh, which empties the cache,
    the insertion session and every run session that started end with the
    message that no snippets are available. *)
Theorem sessions_without_tool (syntax : pystr) (cmd : run_command)
                              (index : Z) (st : state World) :
  (forall argv w, fst (popen argv w) <> Spawned) ->
  (exists st' evs,
     search_insert popen communicate cli_path lower syntax st
     = (Ok None, st') /\
     trace st' = trace st ++ evs /\
     statuses evs = [U "Temper: Loading snippets...";
                     U "Temper: No snippets available"] /\
     List.length (dialogs evs) = 2%nat /\ panels evs = [] /\
     snippet_cache st' = empty_cache) /\
  (exists st' evs,
     run_command_session popen communicate cli_path sel substr cmd index st
     = (Ok None, st') /\
     trace st' = trace st ++ evs /\ panels evs = [] /\
     (statuses evs = [U "No text selected"] /\ dialogs evs = [] \/
      statuses evs = [U "Temper: Loading snippets...";
                      U "Temper: No snippets available"] /\
      List.length (dialogs evs) = 2%nat /\
      snippet_cache st' = empty_cache)).
Proof.
  intros Hmiss.
  assert (Hrefresh : forall s : state World,
             exists st' evs,
               do_refresh popen communicate cli_path None true true s
               = (Ok tt, st') /\
               trace st' = trace s ++ evs /\
               snippet_cache st' = empty_cache /\
               List.length (dialogs evs) = 2%nat /\
               statuses evs = [] /\ panels evs = []).
  { intros s.
    destruct (do_refresh_unspawned World popen communicate cli_path None
                true true s Hmiss)
      as (st' & evs & Hrun & Ht & Hc & Hd & _ & Hev).
    destruct (refresh_events_quiet _ Hev) as [Hs Hp].
    exists st', evs. repeat split; assumption. }
  split.
  - unfold search_insert, bind. unfold emit at 1.
    cbn [trace snippet_cache world].
    match goal with
    | |- context [do_refresh popen communicate cli_path None true true ?s] =>
        destruct (Hrefresh s) as (st1 & evs1 & Hrun & Ht1 & Hc1 & Hd1 & Hs1
                                  & Hp1)
    end.
    rewrite Hrun. cbn [trace] in Ht1.
    unfold show_panel, bind, read_cache, lift. rewrite Hc1.
    cbn [get_all_snippets empty_cache]. unfold emit, ret.
    do 2 eexists. split; [reflexivity|]. cbn [trace snippet_cache].
    rewrite Ht1, <- !app_assoc. split; [reflexivity|].
    rewrite !statuses_app, !dialogs_app, !panels_app, Hs1, Hp1.
    cbn [statuses dialogs panels flat_map app]. rewrite !app_nil_r.
    repeat split; assumption.
  - unfold run_command_session, run_start, bind.
    destruct (negb (str_eqb (mode cmd) (U "show_output")) && _).
    { unfold emit, ret. do 2 eexists. split; [reflexivity|].
      cbn [trace]. split; [reflexivity|]. split; [reflexivity|].
      left. split; reflexivity. }
    unfold emit at 1. unfold ret at 1. cbn [trace snippet_cache world].
    match goal with
    | |- context [do_refresh popen communicate cli_path None true true ?s] =>
        destruct (Hrefresh s) as (st1 & evs1 & Hrun & Ht1 & Hc1 & Hd1 & Hs1
                                  & Hp1)
    end.
    rewrite Hrun. cbn [trace] in Ht1.
    unfold run_show_panel, bind, read_cache, lift. rewrite Hc1.
    cbn [get_all_snippets empty_cache]. unfold emit, ret.
    do 2 eexists. split; [reflexivity|]. cbn [trace snippet_cache].
    rewrite Ht1, <- !app_assoc. split; [reflexivity|].
    rewrite !statuses_app, !dialogs_app, !panels_app, Hs1, Hp1.
    cbn [statuses dialogs panels flat_map app]. rewrite !app_nil_r.
    split; [reflexivity|]. right. repeat split; assumption.
Qed.


(** What the command that runs the current file does, for every file name.
    Without a slug (no file, the empty name, a name that ends with a slash)
    it only shows a status message.  With one it spawns the tool once, to
    run that slug, and leaves the cache alone; what its worker thread
    schedules ends with the output panel and the status [Temper: slug], on
    success and on failure alike: on failure the error status comes first
    and the panel shows the same error text.  When the invoker showed an
    error dialog, that text is the synthetic failure. *)
Theorem run_current_snippet_outcome (file_path : option pystr)
                                    (st : state World) :
  exists r st' evs,
    run_current_snippet popen communicate cli_path sel substr file_path st
    = (r, st') /\
    after st st' evs /\
    match get_slug_from_path file_path with
    | Some (c :: s) =>
        let slug := c :: s in
        popens evs = [[cli_path; U "run"; slug; U "--json"]] /\
        statuses evs = [U "Temper: Running " ++ slug ++ U "..."] /\
        r <> Ok None /\
        (forall calls, r = Ok (Some calls) ->
           (exists output, calls = show_output (Str output) slug) \/
           (exists error_msg,
              let shown := Cat (Lit (U "Error: ")) (Str error_msg) in
              calls = UiStatus shown :: show_output shown slug)) /\
        (dialogs evs <> [] ->
         let shown := Cat (Lit (U "Error: "))
                          (Str (PStr (U "Failed to run temper"))) in
         r = Ok (Some (UiStatus shown :: show_output shown slug)))
    | _ =>
        r = Ok None /\ evs = [StatusMessage (U "Temper: No file open")]
    end.
Proof.
  unfold run_current_snippet.
  destruct (get_slug_from_path file_path) as [[|c s]|];
    try (unfold bind, emit, ret; do 3 eexists; split; [reflexivity|];
         cbn [trace snippet_cache]; split; [split; reflexivity|];
         split; reflexivity).
  unfold bind. unfold emit at 1. unfold run_and_show, bind.
  match goal with
  | |- context [run_snippet popen communicate cli_path (c :: s) ?i ?s0] =>
      destruct (run_snippet_value_run (PStr (c :: s)) i s0)
        as (out & st1 & evs1 & Hrun & [Ht1 Hc1] & Hev1 & Hp1 & Hd1)
  end.
  cbn [run_snippet_value] in Hrun. rewrite Hrun.
  cbn [trace snippet_cache] in Ht1, Hc1.
  destruct (refresh_events_quiet _ (invoker_is_refresh _ Hev1)) as [Hs1 _].
  assert (Hafter : after st st1 (StatusMessage (U "Temper: Running " ++
                                                (c :: s) ++ U "...") :: evs1)).
  { split; [now rewrite Ht1, <- app_assoc|exact Hc1]. }
  assert (Hstat : statuses (StatusMessage (U "Temper: Running " ++
                                           (c :: s) ++ U "...") :: evs1) =
                  [U "Temper: Running " ++ (c :: s) ++ U "..."]).
  { change (statuses (StatusMessage ?m :: evs1)) with (m :: statuses evs1).
    now rewrite Hs1. }
  unfold lift.
  destruct (parseRun out) as [[| | | | | |d]|e] eqn:Eres;
    try (cbn [py_get]; exists (Raise AttributeError), st1; eexists;
         split; [reflexivity|]; split; [exact Hafter|];
         split; [exact Hp1|]; split; [exact Hstat|];
         split; [discriminate|]; split; [discriminate|];
         intros H; rewrite (Hd1 H) in Eres; discriminate Eres).
  2:{ exists (Raise e), st1; eexists.
      split; [reflexivity|]. split; [exact Hafter|].
      split; [exact Hp1|]. split; [exact Hstat|].
      split; [discriminate|]. split; [discriminate|].
      intros H. rewrite (Hd1 H) in Eres. discriminate Eres. }
  cbn [py_get].
  destruct (negb (truthy _)) eqn:Esucc; unfold ret;
    do 2 eexists; eexists; (split; [reflexivity|]);
    (split; [exact Hafter|]); (split; [exact Hp1|]);
    (split; [exact Hstat|]); (split; [discriminate|]); split.
  - intros calls H. injection H as <-. right. eexists. reflexivity.
  - intros H. rewrite (Hd1 H) in Eres. injection Eres as <-. reflexivity.
  - intros calls H. injection H as <-. left. eexists. reflexivity.
  - intros H. rewrite (Hd1 H) in Eres. injection Eres as <-.
    discriminate Esucc.
Qed.

Lemma py_len_iterable (v : pyval) (items : list pyval) :
  py_iter v = Ok items -> py_len v = Ok (List.length items).
Proof.
  destruct v; try discriminate; cbn [py_iter py_len]; intros H;
    injection H as <-; now rewrite ?length_map.
Qed.

(** The refresh command reports the sizes of the two tiers as the refresh
    left them, after the callback has been scheduled once, with the cache no
    longer loading.  When the refresh dies, nothing is reported: the first
    status message stays and the cache is left loading. *)
Theorem refresh_cache_reports (st : state World) :
  exists r st' evs,
    refresh_cache popen communicate cli_path st = (r, st') /\
    trace st' = trace st ++ evs /\
    match r with
    | Ok _ =>
        exists n m,
          py_len (local (snippet_cache st')) = Ok n /\
          py_len (cloud (snippet_cache st')) = Ok m /\
          statuses evs =
            [U "Temper: Refreshing snippet cache...";
             U "Temper: Loaded " ++ decimal n ++ U " local + " ++
             decimal m ++ U " cloud snippets"] /\
          loading (snippet_cache st') = false /\
          callbacks evs = 1%nat /\
          popens evs = [list_query cli_path None; search_query cli_path None]
    | Raise _ =>
        statuses evs = [U "Temper: Refreshing snippet cache..."] /\
        loading (snippet_cache st') = true /\
        callbacks evs = O
    end.
Proof.
  unfold refresh_cache, bind. unfold emit at 1.
  cbn [trace snippet_cache world].
  match goal with
  | |- context [do_refresh popen communicate cli_path None true true ?s] =>
      destruct (do_refresh_run World popen communicate cli_path None true
                  true s)
        as (r1 & st1 & evs1 & -> & Ht1 & Hev1 & _ & Hok & Hraise)
  end.
  cbn [trace] in Ht1.
  destruct (refresh_events_quiet _ Hev1) as [Hs1 _].
  assert (Hstat : statuses (StatusMessage
                              (U "Temper: Refreshing snippet cache...")
                            :: evs1) =
                  [U "Temper: Refreshing snippet cache..."]).
  { change (statuses (StatusMessage ?m :: evs1)) with (m :: statuses evs1).
    now rewrite Hs1. }
  destruct r1 as [[]|e].
  2:{ destruct (Hraise e eq_refl) as [Hl Hcb].
      exists (Raise e), st1; eexists. split; [reflexivity|].
      split; [now rewrite Ht1, <- app_assoc|].
      split; [exact Hstat|]. split; [exact Hl|exact Hcb]. }
  destruct (Hok eq_refl) as (Hp & Hl & Hcb & Hrec).
  destruct (Hrec eq_refl) as [(litems & Hli & _) (citems & Hci & _)].
  unfold read_cache, lift.
  rewrite (py_len_iterable _ _ Hli), (py_len_iterable _ _ Hci).
  unfold emit. do 2 eexists; eexists. split; [reflexivity|].
  cbn [trace snippet_cache]. rewrite Ht1, <- !app_assoc.
  split; [reflexivity|].
  exists (List.length litems), (List.length citems).
  split; [exact (py_len_iterable _ _ Hli)|].
  split; [exact (py_len_iterable _ _ Hci)|].
  cbn [app]. rewrite app_comm_cons, statuses_app, Hstat.
  split; [reflexivity|]. split; [exact Hl|].
  rewrite callbacks_app, popens_app.
  change (callbacks (StatusMessage ?m :: evs1)) with (callbacks evs1).
  change (popens (StatusMessage ?m :: evs1)) with (popens evs1).
  rewrite Hcb, Hp. split; reflexivity.
Qed.

(** Without a tool that can be spawned, the refresh command empties the
    cache and, after the two error dialogs, reports that it loaded no local
    and no cloud snippets. *)
Theorem refresh_cache_without_tool (st : state World) :
  (forall argv w, fst (popen argv w) <> Spawned) ->
  exists st' evs,
    refresh_cache popen communicate cli_path st = (Ok tt, st') /\
    trace st' = trace st ++ evs /\
    snippet_cache st' = empty_cache /\
    List.length (dialogs evs) = 2%nat /\
    statuses evs = [U "Temper: Refreshing snippet cache...";
                    U "Temper: Loaded 0 local + 0 cloud snippets"].
Proof.
  intros Hmiss. unfold refresh_cache, bind. unfold emit at 1.
  cbn [trace snippet_cache world].
  match goal with
  | |- context [do_refresh popen communicate cli_path None true true ?s] =>
      destruct (do_refresh_unspawned World popen communicate cli_path None
                  true true s Hmiss)
        as (st1 & evs1 & -> & Ht1 & Hc1 & Hd1 & _ & Hev1)
  end.
  cbn [trace] in Ht1.
  destruct (refresh_events_quiet _ Hev1) as [Hs1 _].
  unfold read_cache, lift. rewrite Hc1. cbn [local cloud py_len].
  unfold emit. do 2 eexists. split; [reflexivity|].
  cbn [trace snippet_cache]. rewrite Ht1, <- !app_assoc.
  split; [reflexivity|]. split; [exact Hc1|].
  change (?a :: evs1 ++ ?t) with ([a] ++ evs1 ++ t).
  rewrite !dialogs_app, !statuses_app, Hs1, !length_app, Hd1.
  split; reflexivity.
Qed.

End CommandFacts.

Lemma sessions_without_tool_witness :
  (exists st' evs,
     search_insert (py := cpython) missing_popen
                   (scripted_communicate configured)
                   (U "temper") ascii_lower
                   (U "Packages/Python/Python.sublime-syntax")
                   (start (catalog sample_local sample_cloud false))
     = (Ok None, st') /\
     trace st' = evs /\
     statuses evs = [U "Temper: Loading snippets...";
                     U "Temper: No snippets available"] /\
     List.length (dialogs evs) = 2%nat /\ panels evs = [] /\
     snippet_cache st' = empty_cache) /\
  (exists st' evs,
     run_command_session (py := cpython) missing_popen
                         (scripted_communicate configured)
                         (U "temper") [(0, 5)%Z] (fun _ => U "hello")
                         RunReplace 0%Z
                         (start (catalog sample_local sample_cloud false))
     = (Ok None, st') /\
     trace st' = evs /\ panels evs = [] /\
     (statuses evs = [U "No text selected"] /\ dialogs evs = [] \/
      statuses evs = [U "Temper: Loading snippets...";
                      U "Temper: No snippets available"] /\
      List.length (dialogs evs) = 2%nat /\
      snippet_cache st' = empty_cache)).
Proof.
  apply (sessions_without_tool (py := cpython) (list pystr) missing_popen
           (scripted_communicate configured) (U "temper") ascii_lower
           [(0, 5)%Z] (fun _ => U "hello")
           (U "Packages/Python/Python.sublime-syntax") RunReplace 0%Z
           (start (catalog sample_local sample_cloud false))).
  intros argv w. discriminate.
Defined.

Lemma refresh_cache_without_tool_witness :
  exists st' evs,
    refresh_cache (py := cpython) missing_popen
                  (scripted_communicate configured) (U "temper")
                  (start (catalog sample_local sample_cloud false))
    = (Ok tt, st') /\
    trace st' = evs /\
    snippet_cache st' = empty_cache /\
    List.length (dialogs evs) = 2%nat /\
    statuses evs = [U "Temper: Refreshing snippet cache...";
                    U "Temper: Loaded 0 local + 0 cloud snippets"].
Proof.
  apply (refresh_cache_without_tool (py := cpython) (list pystr)
           missing_popen
           (scripted_communicate configured) (U "temper")
           (start (catalog sample_local sample_cloud false))).
  intros argv w. discriminate.
Defined.
